(** * MCP tool invocation and response normalisation (gemini-cli)

    A shallow embedding of the MCP tool module, the second document of
    [src/packages/cli/src/ui/utils/imageUtils.ts]: the tool-name sanitizer [generateValidName], the
    confirmation gate [getConfirmationDetails], the executor [execute], the
    two content normalisers [transformMcpContentToParts] and
    [getStringifiedResultForDisplay], and [asFullyQualifiedTool].

    Conventions.
    - A JavaScript string is a sequence of code units; [string] is used for
      it, one [ascii] per code unit.  [replace], [slice], [length],
      [startsWith] and [split] all work code unit by code unit.
    - Template literals are written with [+:+].
    - Numbers put into template literals ([Date.now()], an array index) are
      non-negative integers and print in decimal ([pretty]). *)

From Stdlib Require Import Ascii ZArith Lia.
From stdpp Require Import base numbers strings list gmap pretty.

(** ** JavaScript string primitives *)

Module JsString.

Fixpoint take (n : nat) (s : string) : string :=
  match n, s with
  | S n', String c r => String c (take n' r)
  | _, _ => EmptyString
  end.

Fixpoint drop (n : nat) (s : string) : string :=
  match n, s with
  | S n', String _ r => drop n' r
  | _, _ => s
  end.

Fixpoint map (f : ascii → ascii) (s : string) : string :=
  match s with
  | EmptyString => EmptyString
  | String c r => String (f c) (map f r)
  end.

Fixpoint forallb (p : ascii → bool) (s : string) : bool :=
  match s with
  | EmptyString => true
  | String c r => p c && forallb p r
  end.

Definition is_empty (s : string) : bool :=
  match s with EmptyString => true | _ => false end.

(** A relative index of [String.prototype.slice], clamped into [0, len]. *)
Definition clamp (len i : Z) : Z :=
  if (i <? 0)%Z then Z.max (len + i) 0 else Z.min i len.

(** [s.slice(start, stop)]; [stop = None] is the one-argument form. *)
Definition slice (s : string) (start : Z) (stop : option Z) : string :=
  let len := Z.of_nat (String.length s) in
  let from := clamp len start in
  let to := match stop with None => len | Some e => clamp len e end in
  take (Z.to_nat (to - from)) (drop (Z.to_nat from) s).

(** [s.startsWith(p)] *)
Fixpoint startsWith (p s : string) : bool :=
  match p, s with
  | EmptyString, _ => true
  | String a p', String b s' => if decide (a = b) then startsWith p' s' else false
  | String _ _, EmptyString => false
  end.

(** [s.split(sep)] for a one-character separator. *)
Fixpoint split_go (sep : ascii) (cur : string) (s : string) : list string :=
  match s with
  | EmptyString => [String.rev cur]
  | String c r =>
      if decide (c = sep) then String.rev cur :: split_go sep EmptyString r
      else split_go sep (String c cur) r
  end.
Definition split (sep : ascii) (s : string) : list string :=
  split_go sep EmptyString s.

(** [parts.join(sep)] *)
Fixpoint join (sep : string) (parts : list string) : string :=
  match parts with
  | [] => ""
  | [p] => p
  | p :: rest => p +:+ sep +:+ join sep rest
  end.

(** [s.replace(pat, rep)] with a string pattern: the first occurrence. *)
Fixpoint replace_first (pat rep s : string) : string :=
  if startsWith pat s then rep +:+ drop (String.length pat) s
  else match s with
       | EmptyString => EmptyString
       | String c r => String c (replace_first pat rep r)
       end.

(** The line feed of ['\n']. *)
Definition LF : string := String (ascii_of_nat 10) EmptyString.

(** [s] occurs in [t] as a contiguous run of code units. *)
Definition contains (t s : string) : Prop :=
  ∃ pre post, t = pre +:+ s +:+ post.

End JsString.

(** ** Tool name sanitizer *)

(** The character class [[a-zA-Z0-9_.-]] of the regular expression. *)
Definition is_valid_name_char (c : ascii) : bool :=
  let n := nat_of_ascii c in
  (((97 <=? n) && (n <=? 122)) || ((65 <=? n) && (n <=? 90)) ||
   ((48 <=? n) && (n <=? 57)) ||
   (n =? 95) || (n =? 46) || (n =? 45))%nat.

(** [name.replace(/[^a-zA-Z0-9_.-]/g, '_')] *)
Definition replace_invalid_chars (name : string) : string :=
  JsString.map (λ c, if is_valid_name_char c then c else "_"%char) name.

Definition generateValidName (name : string) : string :=
  let validToolname := replace_invalid_chars name in
  if (63 <? String.length validToolname)%nat
  then JsString.slice validToolname 0 (Some 28%Z) +:+ "___" +:+
       JsString.slice validToolname (-32) None
  else validToolname.

(** The test [/^[A-Za-z0-9_.-]+$/.test(s)]: at least one character, all of
    them in the class. *)
Definition matches_valid_name_regex (s : string) : bool :=
  negb (JsString.is_empty s) && JsString.forallb is_valid_name_char s.

(** ** Data model *)

(** A value of type [unknown]: plain JSON data. *)
#[local] Unset Elimination Schemes.
Inductive Json : Type :=
  | JNull
  | JBool (b : bool)
  | JNumber (z : Z)
  | JString (s : string)
  | JArray (items : list Json)
  | JObject (members : list (string * Json)).
#[local] Set Elimination Schemes.

(** [type ToolParams = Record<string, unknown>], in key order. *)
Definition ToolParams : Type := list (string * Json).

(** The [type] tag of a [McpMediaBlock]. *)
Inductive MediaType : Type := image | audio.

Definition MediaType_string (t : MediaType) : string :=
  match t with image => "image" | audio => "audio" end.

Record McpMediaBlock : Type := {
  media_type : MediaType;
  mimeType : string;
  filePath : option string;
  uri : option string;
  data : option string;
}.

Record McpResource : Type := {
  resource_text : option string;
  resource_blob : option string;
  resource_mimeType : option string;
}.

(** [McpContentBlock], the union discriminated by [type]; [McpOtherBlock]
    is a block whose tag is none of the five, the [default] of the
    switches. *)
Inductive McpContentBlock : Type :=
  | McpTextBlock (text : string)
  | McpMedia (block : McpMediaBlock)
  | McpResourceBlock (resource : McpResource)
  | McpResourceLinkBlock (link_uri : string) (title name : option string)
  | McpOtherBlock (type : string).

(** [response?.['content']]: absent, present but no array, or an array of
    content blocks. *)
Inductive ContentField : Type :=
  | ContentAbsent
  | ContentNotArray (value : Json)
  | ContentArray (blocks : list McpContentBlock).

(** [isError?: boolean | string] *)
Inductive IsErrorValue : Type :=
  | IsErrorBool (b : bool)
  | IsErrorString (s : string).

Record McpError : Type := { isError : option IsErrorValue }.

Record ToolResponse : Type := {
  content : ContentField;
  error : option McpError;
}.

Record FunctionResponse : Type := {
  fr_name : option string;
  fr_response : option ToolResponse;
}.

Record FileData : Type := { fileUri : string; fileData_mimeType : string }.
Record Blob : Type := { blob_mimeType : string; blob_data : string }.

(** [Part] of the GenAI SDK: every field optional. *)
Record Part : Type := {
  part_text : option string;
  part_fileData : option FileData;
  part_inlineData : option Blob;
  part_functionResponse : option FunctionResponse;
}.

Definition emptyPart : Part :=
  {| part_text := None; part_fileData := None; part_inlineData := None;
     part_functionResponse := None |}.

(** [{ text }] *)
Definition textPart (t : string) : Part :=
  {| part_text := Some t; part_fileData := None; part_inlineData := None;
     part_functionResponse := None |}.
(** [{ fileData: { fileUri, mimeType } }] *)
Definition fileDataPart (u m : string) : Part :=
  {| part_text := None;
     part_fileData := Some {| fileUri := u; fileData_mimeType := m |};
     part_inlineData := None; part_functionResponse := None |}.
(** [{ inlineData: { mimeType, data } }] *)
Definition inlineDataPart (m d : string) : Part :=
  {| part_text := None; part_fileData := None;
     part_inlineData := Some {| blob_mimeType := m; blob_data := d |};
     part_functionResponse := None |}.
(** [{ functionResponse }] *)
Definition functionResponsePart (fr : FunctionResponse) : Part :=
  {| part_text := None; part_fileData := None; part_inlineData := None;
     part_functionResponse := Some fr |}.

Record FunctionCall : Type := {
  fc_name : string;
  fc_args : ToolParams;
}.

(** An [Error] object: its [name] and [message]. *)
Record JsError : Type := { error_name : string; error_message : string }.

(** What [mcpTool.callTool(functionCalls)] settles to. *)
Inductive Settlement (A : Type) : Type :=
  | Fulfilled (value : A)
  | Rejected (reason : JsError).
Arguments Fulfilled {A} value.
Arguments Rejected {A} reason.

(** [CallableTool]: the external callable. *)
Record CallableTool : Type := {
  callTool : list FunctionCall → Settlement (list Part);
}.

(** One image of an [ImageResult]. *)
Record ImageEntry : Type := {
  image_filePath : string;
  image_mimeType : string;
  image_alt : option string;
}.

(** [ToolResultDisplay]: a string or an [ImageResult] [{ images }]. *)
Inductive ToolResultDisplay : Type :=
  | DisplayString (s : string)
  | DisplayImageResult (images : list ImageEntry).

(** Modelled from the spec: the enum [ToolErrorType] of [tool-error.ts],
    which is not under src/; the executor uses its member
    [MCP_TOOL_ERROR] for a "RemoteToolError". *)
Inductive ToolErrorType : Type :=
  | MCP_TOOL_ERROR
  | OTHER_TOOL_ERROR (code : string).

Record ToolError : Type := {
  toolError_message : string;
  toolError_type : ToolErrorType;
}.

(** [llmContent]: a string or a list of parts. *)
Inductive LlmContent : Type :=
  | LlmString (s : string)
  | LlmParts (parts : list Part).

Record ToolResult : Type := {
  llmContent : LlmContent;
  returnDisplay : ToolResultDisplay;
  toolResult_error : option ToolError;
}.

(** Modelled from the spec: the enum [ToolConfirmationOutcome] of
    [tools.ts], which is not under src/.  The spec names three resolutions
    of an MCP confirmation (proceed-once, proceed-and-always-allow-server,
    proceed-and-always-allow-tool); [OtherOutcome] stands for any further
    member, which [onConfirm] treats like proceed-once. *)
Inductive ToolConfirmationOutcome : Type :=
  | ProceedOnce
  | ProceedAlwaysServer
  | ProceedAlwaysTool
  | OtherOutcome (tag : string).

(** [Config], as far as the gate reads it. *)
Record Config : Type := { isTrustedFolder : bool }.

(** A [MessageBus] is only passed along; it is kept as a handle. *)
Definition MessageBus : Type := nat.

(** Modelled from the spec: the enum [Kind] of [tools.ts], which is not
    under src/; MCP tools are of kind [Other]. *)
Inductive Kind : Type :=
  | Kind_Other
  | Kind_Named (k : string).

(** ** The host: built-ins and helpers outside this file

    [safeJsonStringify] ([utils/safeJsonStringify.ts]) and the Node and
    JavaScript built-ins are not part of the modelled file; the functions
    below are stated over any implementation of them. *)
Class Host : Type := {
  (** [safeJsonStringify(functionCalls[0])] *)
  safeJsonStringify_call : FunctionCall → string;
  (** [safeJsonStringify(rawResponseParts)] *)
  safeJsonStringify_parts : list Part → string;
  (** [safeJsonStringify(this.params)] *)
  safeJsonStringify_params : ToolParams → string;
  (** [JSON.stringify(rawResponse, null, 2)] *)
  JSON_stringify_parts : list Part → string;
  (** [Buffer.from(data, 'base64')] *)
  Buffer_from_base64 : string → string;
  (** [os.tmpdir()] *)
  os_tmpdir : string;
  (** [path.join(dir, name)] *)
  path_join : string → string → string;
}.

(** What the surroundings do during one call: the value [Date.now()]
    returns while image [index] is handled, whether [fs.writeFileSync]
    throws for a path, and whether the abort event fires before
    [callTool] settles. *)
Record Surroundings : Type := {
  Date_now : nat → N;
  writeFileSync_throws : string → bool;
  abort_fires_first : bool;
}.

(** The mutable state the code touches: the file system (path to bytes),
    the lines given to [console.error] (oldest first), the static
    [DiscoveredMCPToolInvocation.allowlist], the calls made to
    [callTool], and the number of listeners registered on the signal. *)
Record World : Type := {
  files : gmap string string;
  console_error : list string;
  allowlist : gset string;
  callTool_calls : list (list FunctionCall);
  abort_listeners : nat;
}.

Definition log_error (line : string) (w : World) : World :=
  {| files := files w; console_error := console_error w ++ [line];
     allowlist := allowlist w; callTool_calls := callTool_calls w;
     abort_listeners := abort_listeners w |}.

(** [fs.existsSync(path)] *)
Definition existsSync (path : string) (w : World) : bool :=
  bool_decide (is_Some (files w !! path)).

(** [fs.writeFileSync(path, bytes)], when it does not throw. *)
Definition writeFileSync (path bytes : string) (w : World) : World :=
  {| files := <[path := bytes]> (files w); console_error := console_error w;
     allowlist := allowlist w; callTool_calls := callTool_calls w;
     abort_listeners := abort_listeners w |}.

Definition allowlist_add (key : string) (w : World) : World :=
  {| files := files w; console_error := console_error w;
     allowlist := {[key]} ∪ allowlist w; callTool_calls := callTool_calls w;
     abort_listeners := abort_listeners w |}.

Definition record_callTool (calls : list FunctionCall) (w : World) : World :=
  {| files := files w; console_error := console_error w;
     allowlist := allowlist w; callTool_calls := callTool_calls w ++ [calls];
     abort_listeners := abort_listeners w |}.

Definition addEventListener (w : World) : World :=
  {| files := files w; console_error := console_error w;
     allowlist := allowlist w; callTool_calls := callTool_calls w;
     abort_listeners := S (abort_listeners w) |}.

Definition removeEventListener (w : World) : World :=
  {| files := files w; console_error := console_error w;
     allowlist := allowlist w; callTool_calls := callTool_calls w;
     abort_listeners := pred (abort_listeners w) |}.

(** ** JavaScript truthiness of optional strings *)

(** [if (s)] for [s : string | undefined]. *)
Definition truthy (s : option string) : bool :=
  match s with
  | Some v => negb (JsString.is_empty v)
  | None => false
  end.

(** [a || b] for optional strings. *)
Definition or_else (a b : option string) : option string :=
  if truthy a then a else b.

(** An optional string inside a template literal. *)
Definition in_template (s : option string) : string :=
  match s with Some v => v | None => "undefined" end.

(** ** Content normaliser: model parts *)

Definition transformTextBlock (text : string) : Part := textPart text.

Definition transformImageAudioBlock (block : McpMediaBlock) (toolName : string)
  : list Part :=
  let fileUri :=
    if truthy (filePath block) &&
       JsString.startsWith "file://" (default "" (filePath block))
    then filePath block
    else if truthy (filePath block)
         then Some ("file://" +:+ default "" (filePath block))
         else uri block in
  let hasInlineData := truthy (data block) in
  [ textPart ("[Tool '" +:+ toolName +:+ "' provided the following " +:+
              MediaType_string (media_type block) +:+
              " data with mime-type: " +:+ mimeType block +:+ "]");
    if truthy fileUri
    then fileDataPart (default "" fileUri) (mimeType block)
    else if hasInlineData
         then inlineDataPart (mimeType block) (default "" (data block))
         else textPart "[No image payload provided]" ].

(** What a [flatMap] callback returns: [Part | Part[] | null]. *)
Inductive PartOrParts : Type :=
  | OnePart (p : Part)
  | ManyParts (ps : list Part)
  | NullPart.

Definition transformResourceBlock (resource : McpResource) (toolName : string)
  : PartOrParts :=
  if truthy (resource_text resource)
  then OnePart (textPart (default "" (resource_text resource)))
  else if truthy (resource_blob resource)
  then
    let mimeType :=
      default "application/octet-stream"
              (or_else (resource_mimeType resource)
                       (Some "application/octet-stream")) in
    ManyParts
      [ textPart ("[Tool '" +:+ toolName +:+
                  "' provided the following embedded resource with mime-type: "
                  +:+ mimeType +:+ "]");
        inlineDataPart mimeType (default "" (resource_blob resource)) ]
  else NullPart.

Definition transformResourceLinkBlock (link_uri : string)
    (title name : option string) : Part :=
  textPart ("Resource Link: " +:+ in_template (or_else title name) +:+
            " at " +:+ link_uri).

(** [rawResponse?.[0]?.functionResponse] *)
Definition first_functionResponse (sdkResponse : list Part)
  : option FunctionResponse :=
  head sdkResponse ≫= part_functionResponse.

(** [rawResponse?.[0]?.functionResponse?.response?.['content']] *)
Definition response_content (sdkResponse : list Part) : ContentField :=
  match first_functionResponse sdkResponse ≫= fr_response with
  | Some r => content r
  | None => ContentAbsent
  end.

(** [Array.prototype.flatMap] over such callback results: arrays are
    spliced in, anything else (also [null]) is one element. *)
Definition flatMap_parts (rs : list PartOrParts) : list (option Part) :=
  rs ≫= (λ r, match r with
              | OnePart p => [Some p]
              | ManyParts ps => Some <$> ps
              | NullPart => [None]
              end).

Definition transformMcpContentToParts (sdkResponse : list Part) : list Part :=
  let funcResponse := first_functionResponse sdkResponse in
  let toolName :=
    default "unknown tool"
            (or_else (funcResponse ≫= fr_name) (Some "unknown tool")) in
  match response_content sdkResponse with
  | ContentArray mcpContent =>
      let transformed :=
        flatMap_parts
          ((λ block,
             match block with
             | McpTextBlock text => OnePart (transformTextBlock text)
             | McpMedia m => ManyParts (transformImageAudioBlock m toolName)
             | McpResourceBlock r => transformResourceBlock r toolName
             | McpResourceLinkBlock u t n =>
                 OnePart (transformResourceLinkBlock u t n)
             | McpOtherBlock _ => NullPart
             end) <$> mcpContent) in
      omap id transformed
  | _ => [textPart "[Error: Could not parse tool response]"]
  end.

(** ** Content normaliser: display payload *)

(** The filter that selects [imageBlocks]: an image block that has a
    [mimeType] (every [McpMediaBlock] has) and whose [filePath], [uri] or
    [data] is a string. *)
Definition as_image_block (block : McpContentBlock) : option McpMediaBlock :=
  match block with
  | McpMedia m =>
      match media_type m with
      | image =>
          if bool_decide (is_Some (filePath m)) ||
             bool_decide (is_Some (uri m)) ||
             bool_decide (is_Some (data m))
          then Some m else None
      | audio => None
      end
  | _ => None
  end.

(** The filter and map that give [textParts]. *)
Definition as_text (block : McpContentBlock) : option string :=
  match block with
  | McpTextBlock text => Some text
  | _ => None
  end.

(** [textParts.length > 0 ? textParts.join('\n') : undefined] *)
Definition alt_of (textParts : list string) : option string :=
  match textParts with
  | [] => None
  | _ => Some (JsString.join JsString.LF textParts)
  end.

(** The local [filePath] of the map callback before the existence check:
    the block's [filePath] when truthy, else its [uri] when truthy, with
    a leading [file://] removed. *)
Definition candidate_path (block : McpMediaBlock) : option string :=
  if truthy (filePath block) then filePath block
  else if truthy (uri block) then
    let u := default "" (uri block) in
    Some (if JsString.startsWith "file://" u
          then JsString.replace_first "file://" "" u
          else u)
  else None.

(** [block.mimeType.split('/')[1] || 'png'] *)
Definition temp_extension (mime : string) : string :=
  default "png" (or_else (JsString.split "/"%char mime !! 1) (Some "png")).

(** A decimal digit, as numbers in template literals are made of. *)
Definition is_digit (c : ascii) : bool :=
  ((48 <=? nat_of_ascii c) && (nat_of_ascii c <=? 57))%nat.

(** [`gemini-cli-image-mcp-${Date.now()}-${index}.${extension}`] *)
Definition temp_filename (now : N) (index : nat) (extension : string) : string :=
  "gemini-cli-image-mcp-" +:+ pretty now +:+ "-" +:+ pretty index +:+ "." +:+
  extension.

(** The lines given to [console.error]. *)
Definition missing_path_message (filePath : string) : string :=
  "Image file path does not exist: " +:+ filePath +:+ ", falling back to base64".

Definition write_failed_message : string :=
  "Failed to write image temp file from MCP data".

Definition no_valid_field_message (index : nat) : string :=
  "Image block " +:+ pretty index +:+
  " has no valid filePath, uri, or data field".

Section Display.
Context `{Host}.
Variable env : Surroundings.

(** The callback of [imageBlocks.map((block, index) => ...)]; [None] is
    its [null].  The [catch] around [fs.existsSync] is not modelled:
    [existsSync] does not throw.  [console.error] is given its message;
    the error object printed after it is left out. *)
Definition resolve_image (textParts : list string) (block : McpMediaBlock)
    (index : nat) (w : World) : option ImageEntry * World :=
  let filePath := candidate_path block in
  let found :=
    if truthy filePath then existsSync (default "" filePath) w else false in
  if found then
    (Some {| image_filePath := default "" filePath;
             image_mimeType := mimeType block;
             image_alt := alt_of textParts |}, w)
  else
    let w1 :=
      if truthy filePath
      then log_error (missing_path_message (default "" filePath)) w
      else w in
    if truthy (data block) then
      let extension := temp_extension (mimeType block) in
      let filename := temp_filename (Date_now env index) index extension in
      let filepath := path_join os_tmpdir filename in
      let buffer := Buffer_from_base64 (default "" (data block)) in
      if writeFileSync_throws env filepath
      then (None, log_error write_failed_message w1)
      else (Some {| image_filePath := filepath;
                    image_mimeType := mimeType block;
                    image_alt := alt_of textParts |},
            writeFileSync filepath buffer w1)
    else
      (None, log_error (no_valid_field_message index) w1).

(** [imageBlocks.map(callback)], from [index] on, left to right. *)
Fixpoint map_images (textParts : list string) (blocks : list McpMediaBlock)
    (index : nat) (w : World) : list (option ImageEntry) * World :=
  match blocks with
  | [] => ([], w)
  | block :: rest =>
      let '(entry, w1) := resolve_image textParts block index w in
      let '(entries, w2) := map_images textParts rest (S index) w1 in
      (entry :: entries, w2)
  end.

(** One line of [displayParts]. *)
Definition display_line (block : McpContentBlock) : string :=
  match block with
  | McpTextBlock text => text
  | McpMedia m =>
      match media_type m with
      | image => "[Image: " +:+ mimeType m +:+ "]"
      | audio => "[Audio: " +:+ mimeType m +:+ "]"
      end
  | McpResourceLinkBlock u title name =>
      "[Link to " +:+ in_template (or_else title name) +:+ ": " +:+ u +:+ "]"
  | McpResourceBlock r =>
      if truthy (resource_text r) then default "" (resource_text r)
      else "[Embedded Resource: " +:+
           default "unknown type"
                   (or_else (resource_mimeType r) (Some "unknown type"))
           +:+ "]"
  | McpOtherBlock type => "[Unknown content type: " +:+ type +:+ "]"
  end.

Definition getStringifiedResultForDisplay (rawResponse : list Part)
    (w : World) : ToolResultDisplay * World :=
  match response_content rawResponse with
  | ContentArray mcpContent =>
      let imageBlocks := omap as_image_block mcpContent in
      let text_summary :=
        DisplayString
          (JsString.join JsString.LF (display_line <$> mcpContent)) in
      match imageBlocks with
      | [] => (text_summary, w)
      | _ =>
          let textParts := omap as_text mcpContent in
          let '(entries, w1) := map_images textParts imageBlocks 0 w in
          let images := omap id entries in
          match images with
          | [] => (text_summary, w1)
          | _ => (DisplayImageResult images, w1)
          end
      end
  | _ =>
      (DisplayString ("```json" +:+ JsString.LF +:+
                      JSON_stringify_parts rawResponse +:+
                      JsString.LF +:+ "```"), w)
  end.

End Display.

(** ** The invocation: confirmation gate and executor *)

(** Modelled from the spec: [BaseToolInvocation] of [tools.ts] is not
    under src/; it keeps the arguments of [super(...)] ([params],
    [messageBus], the composite tool name, the display name and the server
    name) as given. *)
Record DiscoveredMCPToolInvocation : Type := {
  inv_mcpTool : CallableTool;
  inv_serverName : string;
  inv_serverToolName : string;
  inv_displayName : string;
  inv_trust : option bool;
  inv_params : ToolParams;
  inv_cliConfig : option Config;
  inv_messageBus : option MessageBus;
  inv_toolName : string;
}.

(** [new DiscoveredMCPToolInvocation(...)] *)
Definition new_DiscoveredMCPToolInvocation (mcpTool : CallableTool)
    (serverName serverToolName displayName : string) (trust : option bool)
    (params : ToolParams) (cliConfig : option Config)
    (messageBus : option MessageBus) : DiscoveredMCPToolInvocation :=
  {| inv_mcpTool := mcpTool; inv_serverName := serverName;
     inv_serverToolName := serverToolName; inv_displayName := displayName;
     inv_trust := trust; inv_params := params; inv_cliConfig := cliConfig;
     inv_messageBus := messageBus;
     inv_toolName := serverName +:+ "__" +:+ serverToolName |}.

Record ToolMcpConfirmationDetails : Type := {
  details_title : string;
  details_serverName : string;
  details_toolName : string;
  details_toolDisplayName : string;
  onConfirm : ToolConfirmationOutcome → World → World;
}.

(** [ToolCallConfirmationDetails | false] *)
Inductive ConfirmationDecision : Type :=
  | NoConfirmationNeeded
  | ConfirmationRequired (details : ToolMcpConfirmationDetails).

Definition getConfirmationDetails (this : DiscoveredMCPToolInvocation)
    (w : World) : ConfirmationDecision :=
  let serverAllowListKey := inv_serverName this in
  let toolAllowListKey :=
    inv_serverName this +:+ "." +:+ inv_serverToolName this in
  if default false (isTrustedFolder <$> inv_cliConfig this) &&
     default false (inv_trust this)
  then NoConfirmationNeeded
  else if bool_decide (serverAllowListKey ∈ allowlist w) ||
          bool_decide (toolAllowListKey ∈ allowlist w)
  then NoConfirmationNeeded
  else ConfirmationRequired
    {| details_title := "Confirm MCP Tool Execution";
       details_serverName := inv_serverName this;
       details_toolName := inv_serverToolName this;
       details_toolDisplayName := inv_displayName this;
       onConfirm := λ outcome w',
         match outcome with
         | ProceedAlwaysServer => allowlist_add serverAllowListKey w'
         | ProceedAlwaysTool => allowlist_add toolAllowListKey w'
         | _ => w'
         end |}.

Definition isMCPToolError (rawResponseParts : list Part) : bool :=
  match first_functionResponse rawResponseParts ≫= fr_response with
  | Some response =>
      match error response with
      | Some err =>
          match isError err with
          | Some (IsErrorBool b) => b
          | Some (IsErrorString s) => bool_decide (s = "true")
          | None => false
          end
      | None => false
      end
  | None => false
  end.

(** The value at [functionResponse.response.error.isError] of the first
    element, when every step of that path is there. *)
Definition embedded_isError (rawResponseParts : list Part)
  : option IsErrorValue :=
  fr ← first_functionResponse rawResponseParts;
  response ← fr_response fr;
  err ← error response;
  isError err.

(** The error made when the signal is or becomes aborted. *)
Definition AbortError : JsError :=
  {| error_name := "AbortError"; error_message := "Tool call aborted" |}.

Section Executor.
Context `{Host}.
Variable env : Surroundings.

(** The promise that races [callTool] against the abort signal.  When
    the abort event fires first, [onAbort] removes the listener and
    rejects; what [callTool] settles to afterwards changes nothing (the
    promise is settled, the listener is gone).  A [callTool] that never
    settles is not modelled. *)
Definition race_callTool (this : DiscoveredMCPToolInvocation)
    (functionCalls : list FunctionCall) (signal_aborted : bool) (w : World)
  : Settlement (list Part) * World :=
  if signal_aborted then (Rejected AbortError, w)
  else
    let w1 := addEventListener w in
    let w2 := record_callTool functionCalls w1 in
    if abort_fires_first env
    then (Rejected AbortError, removeEventListener w2)
    else (callTool (inv_mcpTool this) functionCalls, removeEventListener w2).

(** [execute(signal)]: [Fulfilled] is the returned [ToolResult],
    [Rejected] the error the returned promise rejects with. *)
Definition execute (this : DiscoveredMCPToolInvocation)
    (signal_aborted : bool) (w : World) : Settlement ToolResult * World :=
  let functionCalls :=
    [ {| fc_name := inv_serverToolName this; fc_args := inv_params this |} ] in
  match race_callTool this functionCalls signal_aborted w with
  | (Rejected err, w1) => (Rejected err, w1)
  | (Fulfilled rawResponseParts, w1) =>
      if isMCPToolError rawResponseParts then
        let errorMessage :=
          "MCP tool '" +:+ inv_serverToolName this +:+
          "' reported tool error for function call: " +:+
          safeJsonStringify_call (default {| fc_name := ""; fc_args := [] |}
                                          (head functionCalls)) +:+
          " with response: " +:+ safeJsonStringify_parts rawResponseParts in
        (Fulfilled
           {| llmContent := LlmString errorMessage;
              returnDisplay :=
                DisplayString ("Error: MCP tool '" +:+ inv_serverToolName this
                               +:+ "' reported an error.");
              toolResult_error :=
                Some {| toolError_message := errorMessage;
                        toolError_type := MCP_TOOL_ERROR |} |}, w1)
      else
        let transformedParts := transformMcpContentToParts rawResponseParts in
        let '(display, w2) :=
          getStringifiedResultForDisplay env rawResponseParts w1 in
        (Fulfilled {| llmContent := LlmParts transformedParts;
                      returnDisplay := display;
                      toolResult_error := None |}, w2)
  end.

Definition getDescription (this : DiscoveredMCPToolInvocation) : string :=
  safeJsonStringify_params (inv_params this).

End Executor.

(** ** The tool definition *)

(** Modelled from the spec: [BaseDeclarativeTool] of [tools.ts] is not
    under src/; a ToolDefinition is immutable and keeps the arguments of
    [super(...)] ([name], [displayName], [description], [kind],
    [parameterSchema], [isOutputMarkdown], [canUpdateOutput],
    [messageBus], [extensionName], [extensionId]) as given. *)
Record DiscoveredMCPTool : Type := {
  mcpTool : CallableTool;
  serverName : string;
  serverToolName : string;
  parameterSchema : Json;
  trust : option bool;
  cliConfig : option Config;
  extensionName : option string;
  extensionId : option string;
  name : string;
  displayName : string;
  description : string;
  kind : Kind;
  isOutputMarkdown : bool;
  canUpdateOutput : bool;
  messageBus : option MessageBus;
}.

(** [new DiscoveredMCPTool(...)] *)
Definition new_DiscoveredMCPTool (mcpTool : CallableTool)
    (serverName serverToolName description : string) (parameterSchema : Json)
    (trust : option bool) (nameOverride : option string)
    (cliConfig : option Config) (extensionName extensionId : option string)
    (messageBus : option MessageBus) : DiscoveredMCPTool :=
  {| mcpTool := mcpTool; serverName := serverName;
     serverToolName := serverToolName; parameterSchema := parameterSchema;
     trust := trust; cliConfig := cliConfig;
     extensionName := extensionName; extensionId := extensionId;
     name := default (generateValidName serverToolName) nameOverride;
     displayName := serverToolName +:+ " (" +:+ serverName +:+ " MCP Server)";
     description := description;
     kind := Kind_Other;
     isOutputMarkdown := true;
     canUpdateOutput := false;
     messageBus := messageBus |}.

Definition getFullyQualifiedPrefix (this : DiscoveredMCPTool) : string :=
  serverName this +:+ "__".

(** The object store: tool objects by address; [new] takes the next free
    address and leaves the objects already there as they are. *)
Abbreviation Heap := (list DiscoveredMCPTool) (only parsing).

Definition heap_new (o : DiscoveredMCPTool) (h : Heap) : nat * Heap :=
  (length h, h ++ [o]).

(** [this.asFullyQualifiedTool()], [this] being an address in the store;
    [None] when nothing lives at that address. *)
Definition asFullyQualifiedTool (this : nat) (h : Heap) : option (nat * Heap) :=
  match h !! this with
  | Some t =>
      Some (heap_new
              (new_DiscoveredMCPTool (mcpTool t) (serverName t)
                 (serverToolName t) (description t) (parameterSchema t)
                 (trust t)
                 (Some (getFullyQualifiedPrefix t +:+ serverToolName t))
                 (cliConfig t) (extensionName t) (extensionId t)
                 (messageBus t)) h)
  | None => None
  end.

Definition createInvocation (this : DiscoveredMCPTool) (params : ToolParams)
    (_messageBus : option MessageBus) : DiscoveredMCPToolInvocation :=
  new_DiscoveredMCPToolInvocation (mcpTool this) (serverName this)
    (serverToolName this) (displayName this) (trust this) params
    (cliConfig this) _messageBus.

(** ** A session

    What can happen to the world between two decisions of the gate: a
    confirmation is answered (the [onConfirm] of details handed out at
    some earlier time runs on the present world), or an invocation is
    executed. *)
Inductive session_step `{Host} : World → World → Prop :=
  | step_onConfirm this w0 details outcome w :
      getConfirmationDetails this w0 = ConfirmationRequired details →
      session_step w (onConfirm details outcome w)
  | step_execute env this signal_aborted w :
      session_step w (execute env this signal_aborted w).2.

(** [w'] is the world at some later time of the session of [w]. *)
Definition later_in_session `{Host} : World → World → Prop :=
  rtc session_step.

(** ** The resolution order in the specification's words

    "Resolve a file path with priority (explicit file path), then (URI,
    with a [file://] prefix stripped if present) ...  If path resolution
    and existence check fails for a candidate, log and fall through to the
    next priority."  The candidates that are paths, in that order, and the
    first of them that passes the existence check. *)
Definition spec_path_candidates (block : McpMediaBlock) : list string :=
  option_list (filePath block) ++
  option_list ((λ u, if JsString.startsWith "file://" u
                     then JsString.drop 7 u else u) <$> uri block).

Definition spec_first_existing_path (block : McpMediaBlock) (w : World)
  : option string :=
  List.find (λ p, negb (JsString.is_empty p) && existsSync p w)
            (spec_path_candidates block).

(** A raw response of one element, whose [functionResponse] has the name
    [tool] and a [response] with the given [content] and [error]. *)
Definition mcp_response (tool : option string) (c : ContentField)
    (e : option McpError) : list Part :=
  [ functionResponsePart
      {| fr_name := tool;
         fr_response := Some {| content := c; error := e |} |} ].

(** The text-summary display of a content list. *)
Definition text_summary (mcpContent : list McpContentBlock) : ToolResultDisplay :=
  DisplayString (JsString.join JsString.LF (display_line <$> mcpContent)).

(** The world in which image [i] of [blocks] is handled: the one left by
    the images before it. *)
Definition world_before `{Host} (env : Surroundings) (textParts : list string)
    (blocks : list McpMediaBlock) (w : World) (i : nat) : World :=
  (map_images env textParts (take i blocks) 0 w).2.

(** ** Sample surroundings, for running the definitions *)

Module Sample.

Definition host : Host :=
  {| safeJsonStringify_call := λ fc, "{name:" +:+ fc_name fc +:+ "}";
     safeJsonStringify_parts := λ ps, "[" +:+ pretty (length ps) +:+ " parts]";
     safeJsonStringify_params := λ ps, "{" +:+ pretty (length ps) +:+ " keys}";
     JSON_stringify_parts := λ ps, "[" +:+ pretty (length ps) +:+ " parts]";
     Buffer_from_base64 := λ d, d;
     os_tmpdir := "/tmp";
     path_join := λ dir file, dir +:+ "/" +:+ file |}.

Definition surroundings (now : N) : Surroundings :=
  {| Date_now := λ _, now;
     writeFileSync_throws := λ _, false;
     abort_fires_first := false |}.

Definition world (fs : gmap string string) : World :=
  {| files := fs; console_error := []; allowlist := ∅;
     callTool_calls := []; abort_listeners := 0 |}.

Definition image_block (p u d : option string) : McpMediaBlock :=
  {| media_type := image; mimeType := "image/png";
     filePath := p; uri := u; data := d |}.

(** A tool that answers every call with [parts]. *)
Definition tool (parts : list Part) : CallableTool :=
  {| callTool := λ _, Fulfilled parts |}.

Definition invocation (t : CallableTool) (server toolname : string)
  : DiscoveredMCPToolInvocation :=
  new_DiscoveredMCPToolInvocation t server toolname toolname None
    [("city", JString "Oslo")] None None.

(** An invocation of a tool of the server [weather-server], a second
    tool of the same server with its own flags, and the confirmation
    details the gate hands out for the first in a fresh session. *)
Definition weather : DiscoveredMCPToolInvocation :=
  invocation (tool []) "weather-server" "get_forecast".

Definition alerts_trusted : DiscoveredMCPToolInvocation :=
  new_DiscoveredMCPToolInvocation (tool []) "weather-server" "get_alerts"
    "get_alerts" (Some false) [] (Some {| isTrustedFolder := false |}) None.

Definition weather_details : ToolMcpConfirmationDetails :=
  match getConfirmationDetails weather (world ∅) with
  | ConfirmationRequired d => d
  | NoConfirmationNeeded =>
      {| details_title := ""; details_serverName := "";
         details_toolName := ""; details_toolDisplayName := "";
         onConfirm := λ _ w, w |}
  end.

(** A response that carries the error flag, and an invocation whose tool
    answers with it. *)
Definition failing_response : list Part :=
  mcp_response (Some "get_forecast") (ContentArray [McpTextBlock "boom"])
    (Some {| isError := Some (IsErrorBool true) |}).

Definition failing : DiscoveredMCPToolInvocation :=
  invocation (tool failing_response) "weather-server" "get_forecast".

(** Image blocks: both an existing file path and a URI; a file path that
    is not there and a URI that is; base64 data only. *)
Definition both_paths : McpMediaBlock :=
  image_block (Some "/a.png") (Some "file:///b.png") None.

Definition missing_then_uri : McpMediaBlock :=
  image_block (Some "/missing.png") (Some "file:///b.png") None.

Definition inline_only (d : string) : McpMediaBlock :=
  image_block None None (Some d).

(** A discovered tool, as the registry makes it. *)
Definition forecast_tool : DiscoveredMCPTool :=
  new_DiscoveredMCPTool (tool []) "weather-server" "get forecast"
    "Forecast for a city" (JObject [("type", JString "object")])
    (Some true) None None None None None.

End Sample.

(** ** Image helpers of the CLI

    The first document of [src/packages/cli/src/ui/utils/imageUtils.ts],
    and the consumers of an [ImageResult] in the message components. *)

(** [String.prototype.toLowerCase] on code units below 256: the letters
    [A]-[Z] and the Latin-1 capitals (0xC0-0xDE without the
    multiplication sign 0xD7) move up by 32. *)
Definition lower_code_unit (c : ascii) : ascii :=
  let n := nat_of_ascii c in
  if (((65 <=? n) && (n <=? 90)) ||
      ((192 <=? n) && (n <=? 222) && negb (n =? 215)))%nat
  then ascii_of_nat (n + 32) else c.

Definition toLowerCase (s : string) : string := JsString.map lower_code_unit s.

(** The functions of [node:path] the helpers call; they are built-ins of
    the platform, and the helpers are stated over any implementation. *)
Class NodePath : Type := {
  (** [path.extname(p)] *)
  path_extname : string → string;
  (** [path.isAbsolute(p)] *)
  path_isAbsolute : string → bool;
  (** [path.resolve(from, to)] *)
  path_resolve : string → string → string;
  (** [path.basename(p)] *)
  path_basename : string → string;
}.

Definition IMAGE_EXTENSIONS : list string :=
  [".png"; ".jpg"; ".jpeg"; ".gif"; ".webp"; ".bmp"; ".svg"].

(** [MIME_TYPE_MAP], in the order of the object literal. *)
Definition MIME_TYPE_MAP : list (string * string) :=
  [ (".png", "image/png"); (".jpg", "image/jpeg"); (".jpeg", "image/jpeg");
    (".gif", "image/gif"); (".webp", "image/webp"); (".bmp", "image/bmp");
    (".svg", "image/svg+xml") ].

(** [MIME_TYPE_MAP[ext]]: the own properties of the literal.  An
    extension is empty or starts with a dot, so no inherited property of
    the object is ever asked for. *)
Fixpoint record_lookup (table : list (string * string)) (key : string)
  : option string :=
  match table with
  | [] => None
  | (k, v) :: rest => if decide (k = key) then Some v else record_lookup rest key
  end.

Section ImageFiles.
Context `{NodePath}.

Definition isImageFile (filePath : string) : bool :=
  let ext := toLowerCase (path_extname filePath) in
  bool_decide (ext ∈ IMAGE_EXTENSIONS).

Definition getImageMimeType (filePath : string) : string :=
  let ext := toLowerCase (path_extname filePath) in
  default "image/png" (or_else (record_lookup MIME_TYPE_MAP ext) (Some "image/png")).

End ImageFiles.

(** *** The regular expression of [extractImagePaths]

    [/@([^\s,;!?()[\]{}]+\.(png|jpg|jpeg|gif|webp|bmp|svg))/gi], matched
    the way a backtracking matcher does: the class is repeated greedily,
    and the longest repetition after which the dot and one of the
    alternatives follow is taken. *)

(** [\s] on code units below 256: tab, line feed, vertical tab, form
    feed, carriage return, space and no-break space. *)
Definition is_regex_space (c : ascii) : bool :=
  let n := nat_of_ascii c in
  ((n =? 9) || (n =? 10) || (n =? 11) || (n =? 12) || (n =? 13) ||
   (n =? 32) || (n =? 160))%nat.

(** The class [[^\s,;!?()[\]{}]]. *)
Definition is_path_char (c : ascii) : bool :=
  negb (is_regex_space c ||
        bool_decide (c ∈ [","; ";"; "!"; "?"; "("; ")"; "["; "]"; "{"; "}"]%char)).

(** A letter or digit of the pattern against a code unit of the text
    under the [i] flag: the pattern is in lower case, and only [A]-[Z]
    fold onto it. *)
Definition matches_ignoring_case (pattern c : ascii) : bool :=
  let n := nat_of_ascii c in
  bool_decide
    ((if ((65 <=? n) && (n <=? 90))%nat then ascii_of_nat (n + 32) else c)
     = pattern).

(** The literal [word] at the start of [s], ignoring case. *)
Fixpoint starts_with_word (word s : string) : bool :=
  match word, s with
  | EmptyString, _ => true
  | String p word', String c s' =>
      matches_ignoring_case p c && starts_with_word word' s'
  | String _ _, EmptyString => false
  end.

(** The alternatives of the inner group, in the order of the pattern. *)
Definition image_alternatives : list string :=
  ["png"; "jpg"; "jpeg"; "gif"; "webp"; "bmp"; "svg"].

(** [\.(png|jpg|...)] at the start of [s]: the number of code units
    matched, the first alternative that fits being taken. *)
Definition match_dot_extension (s : string) : option nat :=
  match s with
  | String c r =>
      if decide (c = "."%char) then
        (λ word, S (String.length word)) <$>
        List.find (λ word, starts_with_word word r) image_alternatives
      else None
  | EmptyString => None
  end.

(** [[^...]+\.(...)] at the start of [s]: one code unit of the class,
    then (first choice) the same again, or else the dot and the
    extension. *)
Fixpoint match_path (s : string) : option nat :=
  match s with
  | String c r =>
      if is_path_char c then
        match match_path r with
        | Some n => Some (S n)
        | None => S <$> match_dot_extension r
        end
      else None
  | EmptyString => None
  end.

(** The loop [while ((match = atPathRegex.exec(text)) !== null)]: the
    captures [match[1]] from left to right.  [skip] code units are
    still part of the previous match ([lastIndex] lies beyond them). *)
Fixpoint exec_all (skip : nat) (text : string) : list string :=
  match text with
  | EmptyString => []
  | String c r =>
      match skip with
      | S k => exec_all k r
      | 0 =>
          if decide (c = "@"%char) then
            match match_path r with
            | Some n => JsString.take n r :: exec_all n r
            | None => exec_all 0 r
            end
          else exec_all 0 r
      end
  end.

Section ImagePaths.
Context `{NodePath}.

Definition extractImagePaths (text workspaceRoot : string) : list string :=
  omap (λ imagePath,
          let resolvedPath :=
            if path_isAbsolute imagePath then imagePath
            else path_resolve workspaceRoot imagePath in
          if isImageFile resolvedPath then Some resolvedPath else None)
       (exec_all 0 text).

(** [readImagesAsImageResult(imagePaths)]: [None] is [null], [Some
    images] is [{ images }].  [await fs.access(p)] succeeds when the file
    is there; the file system is taken as it is during the call. *)
Definition readImagesAsImageResult (imagePaths : list string) (w : World)
  : option (list ImageEntry) :=
  match imagePaths with
  | [] => None
  | _ =>
      let images :=
        omap (λ imagePath,
                if existsSync imagePath w then
                  Some {| image_filePath := imagePath;
                          image_mimeType := getImageMimeType imagePath;
                          image_alt := Some (path_basename imagePath) |}
                else None)
             imagePaths in
      match images with
      | [] => None
      | _ => Some images
      end
  end.

End ImagePaths.

(** *** Consumers of the display payload *)

(** [isImageResult(display)] for a [ToolResultDisplay]: an object with a
    non-empty [images] array (each element of which has [filePath] and
    [mimeType], as every [ImageEntry] has). *)
Definition isImageResult (display : ToolResultDisplay) : bool :=
  match display with
  | DisplayString _ => false
  | DisplayImageResult images =>
      bool_decide (0 < length images) && forallb (λ _, true) images
  end.

(** The [imagePaths] memo of [StandaloneImageDisplay]: the paths and the
    error set on the way ([None] is [setError(null)]). *)
Fixpoint imagePaths_from (images : list ImageEntry) (paths : list string)
  : list string * option string :=
  match images with
  | [] => (paths, None)
  | img :: rest =>
      if (String.length (image_filePath img) =? 0)%nat
      then ([], Some "Image missing file path")
      else imagePaths_from rest (paths ++ [image_filePath img])
  end.

Definition imagePaths (images : list ImageEntry) : list string * option string :=
  imagePaths_from images [].

(** *** Vocabulary of the further properties *)

(** A part as the model is given them: exactly one of [text],
    [fileData] and [inlineData], and no [functionResponse]. *)
Definition is_model_part (p : Part) : bool :=
  match part_text p, part_fileData p, part_inlineData p,
        part_functionResponse p with
  | Some _, None, None, None => true
  | None, Some _, None, None => true
  | None, None, Some _, None => true
  | _, _, _, _ => false
  end.

(** The number of occurrences of a code unit in a string. *)
Fixpoint count_code_unit (c : ascii) (s : string) : nat :=
  match s with
  | EmptyString => 0
  | String a r => (if decide (a = c) then 1 else 0) + count_code_unit c r
  end.

(** The world after [execute] made its one call and removed its
    listener, nothing else having happened. *)
Definition after_one_call (this : DiscoveredMCPToolInvocation) (w : World)
  : World :=
  {| files := files w; console_error := console_error w;
     allowlist := allowlist w;
     callTool_calls :=
       callTool_calls w ++
       [[ {| fc_name := inv_serverToolName this; fc_args := inv_params this |} ]];
     abort_listeners := abort_listeners w |}.

(** The image entry the display gives a block whose path is [p]. *)
Definition image_entry (textParts : list string) (block : McpMediaBlock)
    (p : string) : ImageEntry :=
  {| image_filePath := p; image_mimeType := mimeType block;
     image_alt := alt_of textParts |}.

(** The path of the temporary file for image [index] of a call. *)
Definition temp_path `{Host} (env : Surroundings) (index : nat)
    (block : McpMediaBlock) : string :=
  path_join os_tmpdir
    (temp_filename (Date_now env index) index (temp_extension (mimeType block))).

(** ** Further sample values *)

Module SampleFiles.

(** A [node:path] for POSIX paths without dots or slashes at unusual
    places: the extension is what follows the last dot of the last
    segment, a path is absolute when it starts with a slash. *)
Fixpoint last_segment_go (cur s : string) : string :=
  match s with
  | EmptyString => String.rev cur
  | String c r =>
      if decide (c = "/"%char) then last_segment_go EmptyString r
      else last_segment_go (String c cur) r
  end.

Fixpoint extension_go (ext : option string) (s : string) : string :=
  match s with
  | EmptyString => match ext with Some e => String.rev e | None => "" end
  | String c r =>
      if decide (c = "."%char) then extension_go (Some (String c EmptyString)) r
      else extension_go ((λ e, String c e) <$> ext) r
  end.

Definition node_path : NodePath :=
  {| path_extname := λ p, extension_go None (last_segment_go EmptyString p);
     path_isAbsolute := λ p, JsString.startsWith "/" p;
     path_resolve := λ from to, from +:+ "/" +:+ to;
     path_basename := λ p, last_segment_go EmptyString p |}.

(** An invocation whose tool fails at transport level. *)
Definition unreachable_tool : CallableTool :=
  {| callTool := λ _, Rejected {| error_name := "Error";
                                  error_message := "connection closed" |} |}.

Definition unreachable : DiscoveredMCPToolInvocation :=
  Sample.invocation unreachable_tool "weather-server" "get_forecast".

(** Surroundings in which the abort event fires during the call, and
    surroundings in which no file can be written. *)
Definition aborting : Surroundings :=
  {| Date_now := λ _, 0%N; writeFileSync_throws := λ _, false;
     abort_fires_first := true |}.

Definition read_only : Surroundings :=
  {| Date_now := λ _, 0%N; writeFileSync_throws := λ _, true;
     abort_fires_first := false |}.

(** The details handed out for the sample invocations of
    [weather-server]. *)
Definition details_of (this : DiscoveredMCPToolInvocation) (w : World)
  : ToolMcpConfirmationDetails :=
  match getConfirmationDetails this w with
  | ConfirmationRequired d => d
  | NoConfirmationNeeded => Sample.weather_details
  end.

(** Two long tool names that differ in the middle only. *)
Definition long_front : string := "search_documents_in_workspac".
Definition long_back : string := "_and_return_the_matching_lines_1".
Definition long_name_1 : string :=
  long_front +:+ "e_alpha" +:+ long_back.
Definition long_name_2 : string :=
  long_front +:+ "e_beta_gamma" +:+ long_back.

(** A server whose name is the tool key of [get_forecast] of
    [weather-server], an invocation in a trusted folder, and one whose
    tool answers without an error. *)
Definition dotted : DiscoveredMCPToolInvocation :=
  Sample.invocation (Sample.tool []) "weather-server.get_forecast" "erase_all".

Definition trusted : DiscoveredMCPToolInvocation :=
  new_DiscoveredMCPToolInvocation (Sample.tool []) "weather-server"
    "get_forecast" "get_forecast" (Some true) []
    (Some {| isTrustedFolder := true |}) None.

Definition trusted_without_config : DiscoveredMCPToolInvocation :=
  new_DiscoveredMCPToolInvocation (Sample.tool []) "weather-server"
    "get_forecast" "Forecast" (Some true) [] None None.

Definition sunny_response : list Part :=
  mcp_response (Some "get_forecast") (ContentArray [McpTextBlock "sunny"]) None.

Definition working : DiscoveredMCPToolInvocation :=
  Sample.invocation (Sample.tool sunny_response) "weather-server" "get_forecast".

(** A response with a caption and two images whose files are there, and
    the world that has them. *)
Definition chart_a : McpMediaBlock :=
  Sample.image_block (Some "/tmp/a.png") None None.
Definition chart_b : McpMediaBlock :=
  Sample.image_block None (Some "file:///tmp/b.png") None.

Definition charts_response : list Part :=
  mcp_response (Some "plot")
    (ContentArray [McpTextBlock "Two charts"; McpMedia chart_a; McpMedia chart_b])
    None.

Definition charts_world : World :=
  Sample.world {["/tmp/a.png" := "A"; "/tmp/b.png" := "B"]}.

(** A response whose two images stand between two lines of text. *)
Definition captioned_response : list Part :=
  mcp_response (Some "plot")
    (ContentArray
       [McpTextBlock "Sales"; McpMedia chart_a; McpTextBlock "by region";
        McpMedia chart_b])
    None.

End SampleFiles.

(** * Properties *)

(** ** Strings *)

Module JsStringFacts.
Import JsString.

Lemma app_nil_l (s : string) : "" +:+ s = s.
Proof. reflexivity. Qed.

Lemma app_cons (c : ascii) (s t : string) :
  String c s +:+ t = String c (s +:+ t).
Proof. reflexivity. Qed.

Lemma app_assoc (s t u : string) : (s +:+ t) +:+ u = s +:+ t +:+ u.
Proof.
  induction s as [|c s IH]; rewrite ?app_nil_l, ?app_cons; congruence.
Qed.

Lemma app_nil_r (s : string) : s +:+ "" = s.
Proof.
  induction s as [|c s IH]; rewrite ?app_nil_l, ?app_cons; congruence.
Qed.

Lemma length_app (s t : string) :
  String.length (s +:+ t) = String.length s + String.length t.
Proof. induction s as [|c s IH]; simpl; [done | by rewrite IH]. Qed.

Lemma length_map (f : ascii → ascii) (s : string) :
  String.length (map f s) = String.length s.
Proof. induction s as [|c s IH]; simpl; [done | by rewrite IH]. Qed.

Lemma get_map (f : ascii → ascii) (s : string) (i : nat) :
  String.get i (map f s) = f <$> String.get i s.
Proof.
  revert i. induction s as [|c s IH]; intros [|i]; simpl; try done.
Qed.

Lemma length_take (n : nat) (s : string) :
  String.length (take n s) = n `min` String.length s.
Proof.
  revert s; induction n as [|n IH]; intros [|c s]; simpl; try done.
  by rewrite IH.
Qed.

Lemma length_drop (n : nat) (s : string) :
  String.length (drop n s) = String.length s - n.
Proof.
  revert s; induction n as [|n IH]; intros [|c s]; simpl; try done.
Qed.

Lemma take_ge (n : nat) (s : string) : String.length s ≤ n → take n s = s.
Proof.
  revert s; induction n as [|n IH]; intros [|c s]; simpl; try done; [lia|].
  intros Hle. f_equal. apply IH. lia.
Qed.

Lemma forallb_app (p : ascii → bool) (s t : string) :
  forallb p (s +:+ t) = forallb p s && forallb p t.
Proof.
  induction s as [|c s IH]; simpl; [done|].
  by rewrite IH, andb_assoc.
Qed.

Lemma forallb_take (p : ascii → bool) (n : nat) (s : string) :
  forallb p s = true → forallb p (take n s) = true.
Proof.
  revert s; induction n as [|n IH]; intros [|c s]; simpl; try done.
  intros [Hc Hs]%andb_prop. rewrite Hc; simpl. by apply IH.
Qed.

Lemma forallb_drop (p : ascii → bool) (n : nat) (s : string) :
  forallb p s = true → forallb p (drop n s) = true.
Proof.
  revert s; induction n as [|n IH]; intros [|c s]; simpl; try done.
  intros [Hc Hs]%andb_prop. by apply IH.
Qed.

Lemma map_id_on (f : ascii → ascii) (p : ascii → bool) (s : string) :
  (∀ c, p c = true → f c = c) → forallb p s = true → map f s = s.
Proof.
  intros Hf. induction s as [|c s IH]; simpl; [done|].
  intros [Hc Hs]%andb_prop. by rewrite (Hf c Hc), IH.
Qed.

Lemma is_empty_length (s : string) :
  is_empty s = bool_decide (String.length s = 0).
Proof. by destruct s. Qed.

(** [s.slice(0, k)] keeps the first [k] code units. *)
Lemma slice_prefix (s : string) (k : nat) :
  slice s 0 (Some (Z.of_nat k)) = take k s.
Proof.
  unfold slice, clamp.
  destruct (Z.ltb_spec (Z.of_nat k) 0); [lia|].
  change (0 <? 0)%Z with false; cbv iota.
  rewrite (Z.min_l 0) by lia. rewrite Z.sub_0_r. simpl drop.
  destruct (decide (k ≤ String.length s)).
  - rewrite Z.min_l by lia. by rewrite Nat2Z.id.
  - rewrite Z.min_r by lia. rewrite Nat2Z.id.
    rewrite !take_ge; [done | lia | lia].
Qed.

(** [s.slice(-k)] keeps the last [k] code units of a string that has at
    least [k]. *)
Lemma slice_suffix (s : string) (k : nat) :
  0 < k → k ≤ String.length s →
  slice s (- Z.of_nat k) None = drop (String.length s - k) s.
Proof.
  intros Hk Hle. unfold slice, clamp.
  destruct (Z.ltb_spec (- Z.of_nat k) 0); [|lia].
  rewrite Z.max_l by lia.
  replace (Z.to_nat (Z.of_nat (String.length s) + - Z.of_nat k))
    with (String.length s - k) by lia.
  apply take_ge. rewrite length_drop. lia.
Qed.

(** [join] is the library's [concat]. *)
Lemma join_concat (sep : string) (parts : list string) :
  join sep parts = String.concat sep parts.
Proof.
  induction parts as [|p parts IH]; [done|].
  destruct parts as [|q parts]; [done|].
  change (p +:+ sep +:+ join sep (q :: parts) =
          p +:+ sep +:+ String.concat sep (q :: parts)).
  by rewrite IH.
Qed.

Lemma startsWith_app (p s : string) : startsWith p (p +:+ s) = true.
Proof.
  induction p as [|c p IH]; simpl; [done|]. by rewrite decide_True.
Qed.

(** A string that starts with [p] is [p] followed by a rest. *)
Lemma startsWith_rest (p s : string) :
  startsWith p s = true → ∃ rest, s = p +:+ rest.
Proof.
  revert s. induction p as [|c p IH]; intros s; simpl.
  - intros _. by exists s.
  - destruct s as [|b s]; [done|]. case_decide as Hc; [|done].
    intros [rest ->]%IH. exists rest. by rewrite Hc.
Qed.

Lemma drop_app_length (p s : string) : drop (String.length p) (p +:+ s) = s.
Proof. induction p as [|c p IH]; simpl; done. Qed.

(** Removing a prefix with [replace] gives back the rest. *)
Lemma replace_first_prefix (p s : string) :
  replace_first p "" (p +:+ s) = s.
Proof.
  destruct (p +:+ s) eqn:E; simpl.
  - destruct p; [|done]. simpl in E. by subst.
  - rewrite <-E, startsWith_app, drop_app_length. done.
Qed.

Lemma contains_app_l (t s pre : string) : contains t s → contains (pre +:+ t) s.
Proof.
  intros (a & b & ->). exists (pre +:+ a), b.
  by rewrite app_assoc.
Qed.

Lemma contains_app_r (t s post : string) : contains t s → contains (t +:+ post) s.
Proof.
  intros (a & b & ->). exists a, (b +:+ post).
  by rewrite !app_assoc.
Qed.

Lemma contains_refl (s : string) : contains s s.
Proof. exists "", "". simpl. by rewrite app_nil_r. Qed.

End JsStringFacts.

(** ** Tool name sanitizer *)

Section Sanitizer.
Import JsString JsStringFacts.

Lemma replace_invalid_chars_length (name : string) :
  String.length (replace_invalid_chars name) = String.length name.
Proof. apply length_map. Qed.

Lemma replace_invalid_chars_valid (name : string) :
  forallb is_valid_name_char (replace_invalid_chars name) = true.
Proof.
  unfold replace_invalid_chars.
  induction name as [|c s IH]; simpl; [done|].
  rewrite IH, andb_true_r.
  destruct (is_valid_name_char c) eqn:E; [done | reflexivity].
Qed.

(** On a string of the alphabet the substitution changes nothing. *)
Lemma replace_invalid_chars_fixed (s : string) :
  forallb is_valid_name_char s = true → replace_invalid_chars s = s.
Proof.
  apply map_id_on. intros c Hc. by rewrite Hc.
Qed.

(** The truncation written with prefixes and suffixes. *)
Lemma generateValidName_unfold (name : string) :
  let r := replace_invalid_chars name in
  generateValidName name =
    if bool_decide (63 < String.length r)
    then take 28 r +:+ "___" +:+ drop (String.length r - 32) r
    else r.
Proof.
  intros r. unfold generateValidName. fold r.
  destruct (Nat.ltb_spec 63 (String.length r)) as [Hlt|Hge].
  - rewrite bool_decide_eq_true_2 by done.
    change (Some 28%Z) with (Some (Z.of_nat 28)).
    change (-32)%Z with (- Z.of_nat 32)%Z.
    rewrite (slice_prefix r 28), (slice_suffix r 32) by lia. done.
  - rewrite bool_decide_eq_false_2 by lia. done.
Qed.

Lemma generateValidName_length (name : string) :
  String.length (generateValidName name) =
    if bool_decide (63 < String.length name) then 63 else String.length name.
Proof.
  rewrite generateValidName_unfold; cbv zeta.
  rewrite replace_invalid_chars_length.
  case_bool_decide as Hlen; [|apply replace_invalid_chars_length].
  rewrite !length_app, length_take, length_drop,
    replace_invalid_chars_length.
  change (String.length "___") with 3. lia.
Qed.

Lemma generateValidName_valid (name : string) :
  forallb is_valid_name_char (generateValidName name) = true.
Proof.
  rewrite generateValidName_unfold; cbv zeta.
  pose proof (replace_invalid_chars_valid name) as Hv.
  case_bool_decide; [|done].
  rewrite !forallb_app, forallb_take, forallb_drop by done. reflexivity.
Qed.

(** C4 (as amended): for every input string, [generateValidName] returns
    the string in which every character outside [A-Za-z0-9_.-] is
    replaced by ['_'] and every other character is kept, position by
    position, cut down when that string has more than 63
    characters to its first 28 characters, then ['___'], then its last 32
    characters, which is exactly 63 characters; the result consists of
    characters of the alphabet only and has at most 63 characters; it
    matches [^[A-Za-z0-9_.-]+$] exactly when the input is not empty (for
    the empty input the result is empty). *)
Theorem generateValidName_spec (name : string) :
  let substituted := replace_invalid_chars name in
  generateValidName name =
    (if bool_decide (63 < String.length substituted)
     then take 28 substituted +:+ "___" +:+
          drop (String.length substituted - 32) substituted
     else substituted) ∧
  (∀ i, String.get i substituted =
          (λ c, if is_valid_name_char c then c else "_"%char) <$>
          String.get i name) ∧
  String.length substituted = String.length name ∧
  String.length (generateValidName name) =
    (if bool_decide (63 < String.length substituted)
     then 63 else String.length name) ∧
  String.length (generateValidName name) ≤ 63 ∧
  forallb is_valid_name_char (generateValidName name) = true ∧
  matches_valid_name_regex (generateValidName name) = negb (is_empty name).
Proof.
  intros substituted. subst substituted.
  pose proof (generateValidName_length name) as Hlen.
  pose proof (generateValidName_valid name) as Hvalid.
  split_and!.
  - apply generateValidName_unfold.
  - intros i. apply get_map.
  - apply replace_invalid_chars_length.
  - by rewrite replace_invalid_chars_length.
  - rewrite Hlen. case_bool_decide; lia.
  - done.
  - unfold matches_valid_name_regex. rewrite Hvalid, andb_true_r.
    rewrite !is_empty_length, Hlen. f_equal.
    case_bool_decide as H63.
    + rewrite !bool_decide_eq_false_2 by lia. done.
    + done.
Qed.

(** C4, the claim as written fails at the empty string: the result is
    empty and the pattern asks for at least one character. *)
Lemma generateValidName_empty_no_match :
  generateValidName "" = "" ∧
  matches_valid_name_regex (generateValidName "") = false.
Proof. split; reflexivity. Qed.

(** C10: [generateValidName] is idempotent. *)
Theorem generateValidName_idempotent (s : string) :
  generateValidName (generateValidName s) = generateValidName s.
Proof.
  pose proof (generateValidName_length s) as Hlen.
  pose proof (generateValidName_valid s) as Hvalid.
  rewrite (generateValidName_unfold (generateValidName s)); cbv zeta.
  rewrite (replace_invalid_chars_fixed _ Hvalid).
  rewrite bool_decide_eq_false_2; [done|].
  rewrite Hlen. case_bool_decide; lia.
Qed.

End Sanitizer.

Example generateValidName_plain : generateValidName "read_file" = "read_file".
Proof. reflexivity. Qed.

Example generateValidName_subst :
  generateValidName "get weather/v2" = "get_weather_v2".
Proof. reflexivity. Qed.

Example generateValidName_long :
  generateValidName
    "aaaaaaaaaabbbbbbbbbbccccccccccddddddddddeeeeeeeeeeffffffffffgggggggggghhhhhhhhhh"
  = "aaaaaaaaaabbbbbbbbbbcccccccc___eeffffffffffgggggggggghhhhhhhhhh".
Proof. vm_compute. reflexivity. Qed.

(** ** Confirmation gate *)

Section Gate.
Context `{Host}.

(** What [onConfirm] does, whatever invocation it came from. *)
Lemma onConfirm_cases this w0 details outcome w :
  getConfirmationDetails this w0 = ConfirmationRequired details →
  onConfirm details outcome w =
    match outcome with
    | ProceedAlwaysServer => allowlist_add (inv_serverName this) w
    | ProceedAlwaysTool =>
        allowlist_add (inv_serverName this +:+ "." +:+ inv_serverToolName this) w
    | _ => w
    end.
Proof.
  unfold getConfirmationDetails.
  repeat case_match; intros [= <-]; simpl; done.
Qed.

Lemma resolve_image_allowlist env textParts block index w :
  allowlist (resolve_image env textParts block index w).2 = allowlist w.
Proof. unfold resolve_image. repeat case_match; done. Qed.

Lemma map_images_allowlist env textParts blocks index w :
  allowlist (map_images env textParts blocks index w).2 = allowlist w.
Proof.
  revert index w. induction blocks as [|b bs IH]; intros index w; simpl; [done|].
  pose proof (resolve_image_allowlist env textParts b index w) as Hb.
  destruct (resolve_image env textParts b index w) as [e w1].
  specialize (IH (S index) w1).
  destruct (map_images env textParts bs (S index) w1) as [es w2].
  simpl in *. congruence.
Qed.

Lemma display_allowlist env rawResponse w :
  allowlist (getStringifiedResultForDisplay env rawResponse w).2 = allowlist w.
Proof.
  unfold getStringifiedResultForDisplay.
  destruct (response_content rawResponse) as [|v|mcpContent]; try done.
  destruct (omap as_image_block mcpContent) as [|b bs] eqn:Himgs; [done|].
  pose proof (map_images_allowlist env (omap as_text mcpContent) (b :: bs) 0 w)
    as Hm.
  destruct (map_images env (omap as_text mcpContent) (b :: bs) 0 w) as [es w1].
  by destruct (omap id es).
Qed.

Lemma execute_allowlist env this signal_aborted w :
  allowlist (execute env this signal_aborted w).2 = allowlist w.
Proof.
  unfold execute, race_callTool.
  destruct signal_aborted; [done|].
  destruct (abort_fires_first env); [done|].
  destruct (callTool _ _) as [raw|err]; [|done].
  destruct (isMCPToolError raw); [done|].
  match goal with
  | |- context [getStringifiedResultForDisplay env raw ?w1] =>
      pose proof (display_allowlist env raw w1) as Hd;
      destruct (getStringifiedResultForDisplay env raw w1)
  end.
  done.
Qed.

(** The allowlist only grows in a session. *)
Lemma session_step_allowlist w w' :
  session_step w w' → allowlist w ⊆ allowlist w'.
Proof.
  intros [this w0 details outcome w1 Hd | env this aborted w1].
  - rewrite (onConfirm_cases _ _ _ outcome w1 Hd).
    destruct outcome; simpl; set_solver.
  - by rewrite execute_allowlist.
Qed.

Lemma later_in_session_allowlist w w' :
  later_in_session w w' → allowlist w ⊆ allowlist w'.
Proof.
  induction 1 as [|w1 w2 w3 Hstep _ IH]; [done|].
  etrans; [by apply session_step_allowlist | done].
Qed.

(** An allowlisted server needs no confirmation, whatever the flags. *)
Lemma allowlisted_server_no_confirmation this w :
  inv_serverName this ∈ allowlist w →
  getConfirmationDetails this w = NoConfirmationNeeded.
Proof.
  intros Hin. unfold getConfirmationDetails.
  rewrite (bool_decide_eq_true_2 _ Hin). simpl.
  by destruct (_ && _).
Qed.

(** C5: after [onConfirm] ran with [ProceedAlwaysServer] for an
    invocation of server [S], [S] is on the allowlist, and at every later
    time of the session the gate answers "no confirmation needed" for every
    invocation of a tool of [S], whatever its tool name, its trust flag
    and its folder trust; [ProceedOnce] leaves the world, and with it the
    allowlist, as it is. *)
Theorem proceed_always_server_sticks this w0 details w :
  getConfirmationDetails this w0 = ConfirmationRequired details →
  inv_serverName this ∈ allowlist (onConfirm details ProceedAlwaysServer w) ∧
  (∀ w' that,
      later_in_session (onConfirm details ProceedAlwaysServer w) w' →
      inv_serverName that = inv_serverName this →
      getConfirmationDetails that w' = NoConfirmationNeeded) ∧
  onConfirm details ProceedOnce w = w.
Proof.
  intros Hd.
  assert (inv_serverName this ∈
          allowlist (onConfirm details ProceedAlwaysServer w)) as Hin.
  { rewrite (onConfirm_cases _ _ _ _ _ Hd). simpl. set_solver. }
  split_and!; [done| |by rewrite (onConfirm_cases _ _ _ _ _ Hd)].
  intros w' that Hlater Hsame.
  apply allowlisted_server_no_confirmation. rewrite Hsame.
  by apply (later_in_session_allowlist _ _ Hlater).
Qed.

End Gate.

(** ** Executor *)

Section ExecutorFacts.
Context `{Host}.
Import JsString JsStringFacts.

(** C2: entered with a signal that is already aborted, [execute] rejects
    with the [AbortError] and makes no call to [callTool]: the calls
    recorded afterwards are the calls recorded before, so the number of
    calls made is zero, and nothing else of the world changes either. *)
Theorem execute_already_aborted env this w :
  execute env this true w = (Rejected AbortError, w) ∧
  error_name AbortError = "AbortError" ∧
  callTool_calls (execute env this true w).2 = callTool_calls w ∧
  length (callTool_calls (execute env this true w).2) =
    length (callTool_calls w) + 0.
Proof. split_and!; try done. Qed.

(** Entered with a signal that is not aborted, [execute] calls [callTool]
    exactly once, with the one function call of the invocation, and
    leaves no listener behind. *)
Lemma execute_calls_once env this w :
  let w' := (execute env this false w).2 in
  callTool_calls w' =
    callTool_calls w ++
    [[ {| fc_name := inv_serverToolName this; fc_args := inv_params this |} ]] ∧
  abort_listeners w' = abort_listeners w.
Proof.
  cbv zeta. unfold execute, race_callTool.
  assert (∀ raw w1,
    callTool_calls (getStringifiedResultForDisplay env raw w1).2 = callTool_calls w1 ∧
    abort_listeners (getStringifiedResultForDisplay env raw w1).2 = abort_listeners w1)
    as Hdisplay.
  { intros raw w1. unfold getStringifiedResultForDisplay.
    destruct (response_content raw) as [|v|mcpContent]; try done.
    destruct (omap as_image_block mcpContent) as [|b bs]; [done|].
    assert (∀ tp blocks index w2,
      callTool_calls (map_images env tp blocks index w2).2 = callTool_calls w2 ∧
      abort_listeners (map_images env tp blocks index w2).2 = abort_listeners w2)
      as Hmap.
    { intros tp blocks. induction blocks as [|b' bs' IH]; intros index w2; [done|].
      simpl.
      assert (callTool_calls (resolve_image env tp b' index w2).2 = callTool_calls w2 ∧
              abort_listeners (resolve_image env tp b' index w2).2 = abort_listeners w2)
        as [Hc Hl].
      { unfold resolve_image. repeat case_match; done. }
      destruct (resolve_image env tp b' index w2) as [e w3].
      destruct (IH (S index) w3) as [Hc' Hl'].
      destruct (map_images env tp bs' (S index) w3) as [es w4].
      simpl in *. split; congruence. }
    destruct (Hmap (omap as_text mcpContent) (b :: bs) 0 w1) as [Hc Hl].
    destruct (map_images env (omap as_text mcpContent) (b :: bs) 0 w1) as [es w2].
    by destruct (omap id es). }
  destruct (abort_fires_first env); [done|].
  destruct (callTool _ _) as [raw|err]; [|done].
  destruct (isMCPToolError raw); [done|].
  match goal with
  | |- context [getStringifiedResultForDisplay env raw ?w1] =>
      destruct (Hdisplay raw w1) as [Hc Hl];
      destruct (getStringifiedResultForDisplay env raw w1)
  end.
  simpl in *. by rewrite Hc, Hl.
Qed.

Local Ltac no_flag := split; [done | intros (? & ? & _); done].

(** [isMCPToolError] is the test of the embedded flag. *)
Lemma isMCPToolError_iff rawResponseParts :
  isMCPToolError rawResponseParts = true ↔
  ∃ flag,
    embedded_isError rawResponseParts = Some flag ∧
    (flag = IsErrorBool true ∨ flag = IsErrorString "true").
Proof.
  unfold isMCPToolError, embedded_isError.
  destruct (first_functionResponse rawResponseParts) as [fr|]; simpl;
    [|no_flag].
  destruct (fr_response fr) as [response|]; simpl; [|no_flag].
  destruct (error response) as [err|]; simpl; [|no_flag].
  destruct (isError err) as [[[]|s]|]; simpl; [| | |no_flag].
  - split; [intros _; exists (IsErrorBool true); auto | done].
  - split; [done | intros (flag & [= <-] & [?|?]); done].
  - rewrite bool_decide_eq_true. split.
    + intros ->. exists (IsErrorString "true"); auto.
    + intros (flag & [= <-] & [?|[= ->]]); done.
Qed.

(** C3: when the call is made and settles, before any abort, to a raw
    response whose first element carries
    [functionResponse.response.error.isError] equal to [true] or to the
    string ["true"], [execute] returns the error result: error type
    [MCP_TOOL_ERROR], a diagnostic message (also the model content) that
    contains the serialized function call, made of the tool name and the
    parameters of the invocation, and the serialized raw response, and a
    short display message that names the tool.  Nothing is normalised: the
    model content is no list of parts, and neither the file system nor the
    console changes. *)
Theorem execute_remote_tool_error env this w rawResponseParts flag :
  abort_fires_first env = false →
  callTool (inv_mcpTool this)
    [ {| fc_name := inv_serverToolName this; fc_args := inv_params this |} ]
    = Fulfilled rawResponseParts →
  embedded_isError rawResponseParts = Some flag →
  flag = IsErrorBool true ∨ flag = IsErrorString "true" →
  ∃ errorMessage w',
    execute env this false w =
      (Fulfilled
         {| llmContent := LlmString errorMessage;
            returnDisplay :=
              DisplayString ("Error: MCP tool '" +:+ inv_serverToolName this
                             +:+ "' reported an error.");
            toolResult_error :=
              Some {| toolError_message := errorMessage;
                      toolError_type := MCP_TOOL_ERROR |} |}, w') ∧
    contains errorMessage
      (safeJsonStringify_call
         {| fc_name := inv_serverToolName this; fc_args := inv_params this |}) ∧
    contains errorMessage (safeJsonStringify_parts rawResponseParts) ∧
    contains errorMessage (inv_serverToolName this) ∧
    files w' = files w ∧ console_error w' = console_error w.
Proof.
  intros Hrace Hcall Hflag Hval.
  assert (isMCPToolError rawResponseParts = true) as Herr.
  { apply isMCPToolError_iff. by exists flag. }
  eexists _, _. split.
  - unfold execute, race_callTool. rewrite Hrace, Hcall, Herr. simpl. reflexivity.
  - split_and!; [| | |done|done].
    + do 3 apply contains_app_l. apply contains_app_r, contains_refl.
    + do 5 apply contains_app_l. apply contains_refl.
    + apply contains_app_l, contains_app_r, contains_refl.
Qed.

End ExecutorFacts.

(** ** Content normaliser *)

Section Normaliser.
Context `{Host}.

Lemma response_content_mcp_response tool c e :
  response_content (mcp_response tool c e) = c.
Proof. reflexivity. Qed.

(** The model parts of a content list are those of its blocks, in order. *)
Lemma transformMcpContentToParts_app tool e pre post :
  transformMcpContentToParts (mcp_response tool (ContentArray (pre ++ post)) e) =
  transformMcpContentToParts (mcp_response tool (ContentArray pre) e) ++
  transformMcpContentToParts (mcp_response tool (ContentArray post) e).
Proof.
  unfold transformMcpContentToParts, flatMap_parts; simpl.
  by rewrite fmap_app, bind_app, omap_app.
Qed.

(** C7: a text block becomes exactly one model part, the part whose
    [text] field is the text of the block, as it is, and whose other
    fields are absent, wherever the block stands in the content list; a
    response whose content is that one block has this single part as
    model content and the text itself as display payload, and the world
    is left alone.  This holds for every text, ["hello"] included. *)
Theorem text_block_roundtrip env (t : string) :
  let part :=
    {| part_text := Some t; part_fileData := None; part_inlineData := None;
       part_functionResponse := None |} in
  transformTextBlock t = part ∧
  part_text (transformTextBlock t) = Some t ∧
  (∀ tool e pre post,
     transformMcpContentToParts
       (mcp_response tool (ContentArray (pre ++ McpTextBlock t :: post)) e) =
     transformMcpContentToParts (mcp_response tool (ContentArray pre) e) ++
     part ::
     transformMcpContentToParts (mcp_response tool (ContentArray post) e)) ∧
  (∀ rawResponse w,
     response_content rawResponse = ContentArray [McpTextBlock t] →
     transformMcpContentToParts rawResponse = [part] ∧
     getStringifiedResultForDisplay env rawResponse w = (DisplayString t, w)).
Proof.
  cbv zeta. split_and!; [done|done| |].
  - intros tool e pre post.
    by rewrite transformMcpContentToParts_app.
  - intros rawResponse w Hc. split.
    + unfold transformMcpContentToParts. by rewrite Hc.
    + unfold getStringifiedResultForDisplay. by rewrite Hc.
Qed.

(** *** One image *)

Lemma existsSync_writeFileSync path bytes w :
  existsSync path (writeFileSync path bytes w) = true.
Proof.
  unfold existsSync, writeFileSync; simpl.
  apply bool_decide_eq_true. rewrite lookup_insert_eq. by eexists.
Qed.

Lemma existsSync_writeFileSync_mono p path bytes w :
  existsSync p w = true → existsSync p (writeFileSync path bytes w) = true.
Proof.
  unfold existsSync, writeFileSync; simpl.
  rewrite !bool_decide_eq_true. intros [v Hv].
  destruct (decide (path = p)) as [->|Hne].
  - rewrite lookup_insert_eq. by eexists.
  - rewrite lookup_insert_ne by done. by eexists.
Qed.

(** Handling an image never removes a file. *)
Lemma resolve_image_exists_mono env textParts block index w p :
  existsSync p w = true →
  existsSync p (resolve_image env textParts block index w).2 = true.
Proof.
  intros Hp. unfold resolve_image.
  repeat case_match; simpl; try done;
    by apply existsSync_writeFileSync_mono.
Qed.

(** An image that is kept refers to a file that exists afterwards. *)
Lemma resolve_image_Some_exists env textParts block index w e :
  (resolve_image env textParts block index w).1 = Some e →
  existsSync (image_filePath e) (resolve_image env textParts block index w).2
    = true.
Proof.
  unfold resolve_image.
  destruct (if truthy (candidate_path block)
            then existsSync (default "" (candidate_path block)) w
            else false) eqn:Hfound.
  - simpl. intros [= <-]; simpl. by destruct (truthy (candidate_path block)).
  - destruct (truthy (data block)); [|done].
    destruct (writeFileSync_throws env _); [done|].
    simpl. intros [= <-]; simpl. apply existsSync_writeFileSync.
Qed.

(** *** All images *)

Lemma map_images_length env textParts blocks index w :
  length (map_images env textParts blocks index w).1 = length blocks.
Proof.
  revert index w. induction blocks as [|b bs IH]; intros index w; simpl; [done|].
  destruct (resolve_image env textParts b index w) as [e w1].
  specialize (IH (S index) w1).
  destruct (map_images env textParts bs (S index) w1) as [es w2].
  simpl in *. by rewrite IH.
Qed.

Lemma map_images_exists_mono env textParts blocks index w p :
  existsSync p w = true →
  existsSync p (map_images env textParts blocks index w).2 = true.
Proof.
  revert index w. induction blocks as [|b bs IH]; intros index w Hp; simpl; [done|].
  pose proof (resolve_image_exists_mono env textParts b index w p Hp) as Hb.
  destruct (resolve_image env textParts b index w) as [e w1].
  specialize (IH (S index) w1 Hb).
  by destruct (map_images env textParts bs (S index) w1) as [es w2].
Qed.

(** Every kept image is the outcome of handling one of the blocks, and
    its file exists in the end. *)
Lemma map_images_elem env textParts blocks index w e :
  Some e ∈ (map_images env textParts blocks index w).1 →
  ∃ i block wi,
    blocks !! i = Some block ∧
    (resolve_image env textParts block (index + i) wi).1 = Some e ∧
    existsSync (image_filePath e) (map_images env textParts blocks index w).2
      = true.
Proof.
  revert index w. induction blocks as [|b bs IH]; intros index w; simpl.
  { intros Hin. by apply elem_of_nil in Hin. }
  pose proof (resolve_image_Some_exists env textParts b index w) as Hb.
  destruct (resolve_image env textParts b index w) as [r w1] eqn:Hr.
  pose proof (map_images_exists_mono env textParts bs (S index) w1) as Hmono.
  specialize (IH (S index) w1).
  destruct (map_images env textParts bs (S index) w1) as [es w2].
  simpl in *. intros [Heq|Hin]%elem_of_cons.
  - subst r. exists 0, b, w. rewrite Nat.add_0_r, Hr. split_and!; try done.
    apply Hmono, Hb. done.
  - destruct (IH Hin) as (i & block & wi & Hi & Hres & Hex).
    exists (S i), block, wi. split_and!; try done.
    by rewrite Nat.add_succ_r.
Qed.

(** The outcome for image [i] is that of handling it in the world left
    by the images before it: no outcome of another image stands in its
    way. *)
Lemma map_images_lookup env textParts blocks index w i block :
  blocks !! i = Some block →
  (map_images env textParts blocks index w).1 !! i =
    Some (resolve_image env textParts block (index + i)
            (map_images env textParts (take i blocks) index w).2).1.
Proof.
  revert index w i. induction blocks as [|b bs IH]; intros index w i; [done|].
  destruct i as [|i]; simpl.
  - intros [= ->]. rewrite Nat.add_0_r.
    destruct (resolve_image env textParts block index w) as [r w1].
    by destruct (map_images env textParts bs (S index) w1).
  - intros Hi. specialize (IH (S index)).
    destruct (resolve_image env textParts b index w) as [r w1].
    specialize (IH w1 i Hi).
    destruct (map_images env textParts bs (S index) w1) as [es w2].
    destruct (map_images env textParts (take i bs) (S index) w1) as [es' w2'].
    simpl in *. by rewrite Nat.add_succ_r.
Qed.

Lemma as_image_block_Some block m :
  as_image_block block = Some m → block = McpMedia m ∧ media_type m = image.
Proof.
  destruct block as [|m'| | |]; simpl; try done.
  destruct (media_type m') eqn:Hk; [|done].
  case_match; [|done]. by intros [= <-].
Qed.

Lemma no_image_blocks mcpContent :
  (∀ m, McpMedia m ∈ mcpContent → media_type m ≠ image) →
  omap as_image_block mcpContent = [].
Proof.
  intros Hno. destruct (omap as_image_block mcpContent) as [|m ms] eqn:E; [done|].
  assert (m ∈ omap as_image_block mcpContent) as Hm by (rewrite E; left).
  apply list_elem_of_omap in Hm as (block & Hin & Hb).
  apply as_image_block_Some in Hb as [-> Himg].
  by destruct (Hno m Hin).
Qed.

Lemma omap_id_all_None {A} (rs : list (option A)) :
  (∀ r, r ∈ rs → r = None) → omap id rs = [].
Proof.
  induction rs as [|r rs IH]; [done|]. intros Hall.
  rewrite (Hall r) by left. simpl. apply IH. intros r' Hr'. apply Hall. by right.
Qed.

(** C6: the display payload is an [ImageResult] only if at least one
    image block yielded a file path: its images are then not empty, the
    content was a list, and each image is what [resolve_image] kept for an
    image-kind media block of that list, with a path that exists when
    the call is over.  In every other case the payload is a string: for a
    content that is no list (the JSON dump), for a list without
    image-kind blocks, and for a list all of whose image blocks were
    dropped (the text summary). *)
Theorem display_image_result_only_if_resolved env rawResponse w :
  let display := (getStringifiedResultForDisplay env rawResponse w).1 in
  let w' := (getStringifiedResultForDisplay env rawResponse w).2 in
  (∀ images, display = DisplayImageResult images →
     images ≠ [] ∧
     ∃ mcpContent,
       response_content rawResponse = ContentArray mcpContent ∧
       ∀ e, e ∈ images →
         ∃ m index wi,
           McpMedia m ∈ mcpContent ∧ media_type m = image ∧
           (resolve_image env (omap as_text mcpContent) m index wi).1 = Some e ∧
           existsSync (image_filePath e) w' = true) ∧
  ((∀ mcpContent, response_content rawResponse ≠ ContentArray mcpContent) →
     display = DisplayString ("```json" +:+ JsString.LF +:+
                              JSON_stringify_parts rawResponse +:+
                              JsString.LF +:+ "```")) ∧
  (∀ mcpContent,
     response_content rawResponse = ContentArray mcpContent →
     (∀ m, McpMedia m ∈ mcpContent → media_type m ≠ image) →
     display = text_summary mcpContent) ∧
  (∀ mcpContent,
     response_content rawResponse = ContentArray mcpContent →
     (∀ r, r ∈ (map_images env (omap as_text mcpContent)
                  (omap as_image_block mcpContent) 0 w).1 → r = None) →
     display = text_summary mcpContent).
Proof.
  cbv zeta. unfold getStringifiedResultForDisplay. split_and!.
  - intros images.
    destruct (response_content rawResponse) as [|v|mcpContent]; try done.
    destruct (omap as_image_block mcpContent) as [|b bs] eqn:Himgs; [done|].
    pose proof (map_images_elem env (omap as_text mcpContent) (b :: bs) 0 w)
      as Helem.
    destruct (map_images env (omap as_text mcpContent) (b :: bs) 0 w)
      as [es w1].
    destruct (omap id es) as [|i l] eqn:Hes; [done|].
    simpl. intros [= <-]. split; [done|].
    exists mcpContent. split; [done|]. intros e He.
    assert (Some e ∈ es) as Hin.
    { rewrite <-Hes in He.
      apply list_elem_of_omap in He as (r & Hr & Hid). simpl in Hid. by subst r. }
    destruct (Helem e Hin) as (k & m & wi & Hk & Hres & Hex).
    assert (m ∈ omap as_image_block mcpContent) as Hm.
    { rewrite Himgs. by eapply list_elem_of_lookup_2. }
    apply list_elem_of_omap in Hm as (block & Hblock & Hsel).
    apply as_image_block_Some in Hsel as [-> Himage].
    by exists m, (0 + k), wi.
  - intros Hno.
    destruct (response_content rawResponse) as [|v|mcpContent]; try done.
    by destruct (Hno mcpContent).
  - intros mcpContent -> Hno. by rewrite (no_image_blocks _ Hno).
  - intros mcpContent -> Hall.
    destruct (omap as_image_block mcpContent) as [|b bs]; [done|].
    destruct (map_images env (omap as_text mcpContent) (b :: bs) 0 w)
      as [es w1].
    by rewrite (omap_id_all_None es Hall).
Qed.

(** *** The path of an image *)

Lemma truthy_Some (v : string) : v ≠ "" → truthy (Some v) = true.
Proof. by destruct v. Qed.

Lemma candidate_path_filePath block p :
  filePath block = Some p → p ≠ "" → candidate_path block = Some p.
Proof.
  intros Hp Hne. unfold candidate_path. by rewrite Hp, truthy_Some.
Qed.

Lemma candidate_path_uri_prefixed block u :
  truthy (filePath block) = false → uri block = Some ("file://" +:+ u) →
  candidate_path block = Some u.
Proof.
  intros Hf Hu. unfold candidate_path. rewrite Hf, Hu.
  rewrite truthy_Some by done. simpl default.
  rewrite JsStringFacts.startsWith_app.
  by rewrite JsStringFacts.replace_first_prefix.
Qed.

Lemma candidate_path_uri_plain block u :
  truthy (filePath block) = false → uri block = Some u → u ≠ "" →
  JsString.startsWith "file://" u = false →
  candidate_path block = Some u.
Proof.
  intros Hf Hu Hne Hs. unfold candidate_path. rewrite Hf, Hu.
  rewrite truthy_Some by done. simpl default. by rewrite Hs.
Qed.

Lemma resolve_image_found env textParts block index w p :
  candidate_path block = Some p → p ≠ "" → existsSync p w = true →
  resolve_image env textParts block index w =
    (Some {| image_filePath := p; image_mimeType := mimeType block;
             image_alt := alt_of textParts |}, w).
Proof.
  intros Hc Hne Hex. unfold resolve_image.
  rewrite Hc, truthy_Some by done. simpl default. by rewrite Hex.
Qed.

(** The outcomes of all images are those of handling each in the world
    left by the images before it. *)
Lemma map_images_imap env textParts blocks w :
  (map_images env textParts blocks 0 w).1 =
  imap (λ i m, (resolve_image env textParts m i
                  (world_before env textParts blocks w i)).1) blocks.
Proof.
  apply list_eq. intros i. rewrite list_lookup_imap.
  destruct (blocks !! i) as [b|] eqn:Hb.
  - by rewrite (map_images_lookup env textParts blocks 0 w i b Hb).
  - simpl. apply lookup_ge_None. rewrite map_images_length.
    by apply lookup_ge_None.
Qed.

(** A dropped image leaves the files alone, and the last line logged is
    one of the two lines that go with dropping. *)
Lemma resolve_image_None_logged env textParts block index w :
  (resolve_image env textParts block index w).1 = None →
  files (resolve_image env textParts block index w).2 = files w ∧
  ∃ lines line,
    console_error (resolve_image env textParts block index w).2 =
      console_error w ++ lines ++ [line] ∧
    (line = "Image block " +:+ pretty index +:+
            " has no valid filePath, uri, or data field" ∨
     line = "Failed to write image temp file from MCP data").
Proof.
  unfold resolve_image.
  destruct (if truthy (candidate_path block) then _ else false); [done|].
  match goal with
  | |- context [if truthy (data block) then _ else (None, log_error _ ?w0)] =>
      set (w1 := w0)
  end.
  assert (files w1 = files w ∧
          ∃ lines, console_error w1 = console_error w ++ lines)
    as (Hfiles & lines & Hlines).
  { unfold w1. destruct (truthy (candidate_path block)); simpl.
    - split; [done|]. by eexists [_].
    - split; [done|]. exists []. by rewrite app_nil_r. }
  destruct (truthy (data block)).
  - destruct (writeFileSync_throws env _); [|done].
    simpl. intros _. split; [done|]. exists lines, write_failed_message.
    rewrite Hlines, <-app_assoc. split; [done | by right].
  - simpl. intros _. split; [done|].
    exists lines, (no_valid_field_message index).
    rewrite Hlines, <-app_assoc. split; [done | by left].
Qed.


End Normaliser.

(** ** Temporary file names *)

Section TempNames.

Lemma pretty_N_char_digit (x : N) : is_digit (pretty_N_char x) = true.
Proof. unfold pretty_N_char. by repeat case_match. Qed.

Lemma pretty_N_go_digits (x : N) (s : string) :
  JsString.forallb is_digit s = true →
  JsString.forallb is_digit (pretty_N_go x s) = true.
Proof.
  revert s. induction (N.lt_wf_0 x) as [x _ IH]; intros s Hs.
  destruct (decide (x = 0%N)) as [->|Hx].
  - by rewrite pretty_N_go_0.
  - rewrite pretty_N_go_step by lia. apply IH.
    + apply N.div_lt; lia.
    + simpl. by rewrite pretty_N_char_digit, Hs.
Qed.

(** A number in a template literal is a run of decimal digits. *)
Lemma pretty_N_digits (x : N) : JsString.forallb is_digit (pretty x) = true.
Proof.
  unfold pretty, pretty_N. case_decide; [done|].
  by apply pretty_N_go_digits.
Qed.

Lemma pretty_nat_digits (n : nat) : JsString.forallb is_digit (pretty n) = true.
Proof. apply pretty_N_digits. Qed.

(** Two strings cut at the first occurrence of a separator that is no
    digit: equal wholes have equal digit parts and equal rests. *)
Lemma digits_sep_inj (c : ascii) (s1 s2 r1 r2 : string) :
  is_digit c = false →
  JsString.forallb is_digit s1 = true →
  JsString.forallb is_digit s2 = true →
  s1 +:+ String c r1 = s2 +:+ String c r2 →
  s1 = s2 ∧ r1 = r2.
Proof.
  intros Hc. revert s2.
  induction s1 as [|a s1 IH]; intros [|b s2]; simpl.
  - intros _ _ [= ->]. done.
  - intros _ [Hb _]%andb_prop [= <- _]. congruence.
  - intros [Ha _]%andb_prop _ [= -> _]. congruence.
  - intros [_ H1]%andb_prop [_ H2]%andb_prop [= -> Heq].
    destruct (IH s2 H1 H2 Heq) as [-> ->]. done.
Qed.

Lemma temp_filename_inj n1 i1 e1 n2 i2 e2 :
  temp_filename n1 i1 e1 = temp_filename n2 i2 e2 →
  n1 = n2 ∧ i1 = i2 ∧ e1 = e2.
Proof.
  unfold temp_filename. intros Heq.
  apply (inj (String.app "gemini-cli-image-mcp-")) in Heq.
  apply (digits_sep_inj "-"%char) in Heq as [Hn Heq];
    [|done|apply pretty_N_digits..].
  apply (digits_sep_inj "."%char) in Heq as [Hi He];
    [|done|apply pretty_nat_digits..].
  apply (inj pretty) in Hn. apply (inj pretty) in Hi. done.
Qed.

Context `{Host}.

(** C9 (as amended): the name of the temporary file is made of the
    timestamp, the index of the block among the image blocks and the
    subtype of the mime type, and of nothing else: handling an image
    either leaves the files alone or writes the decoded data to exactly
    the file of that name in the temporary directory, which is then the
    image's path.  Two such names are equal exactly when timestamp, index
    and extension are all equal: names made in different ticks or at
    different indices differ, names made in the same tick at the same
    index for the same mime subtype are the same name. *)
Theorem temp_filename_determined_by_tick_and_index :
  (∀ env textParts block index w,
     let result := resolve_image env textParts block index w in
     let tmp :=
       path_join os_tmpdir
         (temp_filename (Date_now env index) index
            (temp_extension (mimeType block))) in
     files result.2 = files w ∨
     ∃ d, data block = Some d ∧
          files result.2 = <[tmp := Buffer_from_base64 d]> (files w) ∧
          image_filePath <$> result.1 = Some tmp) ∧
  (∀ now1 index1 ext1 now2 index2 ext2,
     temp_filename now1 index1 ext1 = temp_filename now2 index2 ext2 ↔
     now1 = now2 ∧ index1 = index2 ∧ ext1 = ext2).
Proof.
  split.
  - intros env textParts block index w. cbv zeta. unfold resolve_image.
    destruct (if truthy (candidate_path block) then _ else false);
      [by left|].
    destruct (data block) as [d|] eqn:Hd; simpl.
    + destruct (JsString.is_empty d); simpl.
      { left. by destruct (truthy (candidate_path block)). }
      destruct (writeFileSync_throws env _).
      { left. by destruct (truthy (candidate_path block)). }
      right. exists d. split_and!; try done.
      by destruct (truthy (candidate_path block)).
    + left. by destruct (truthy (candidate_path block)).
  - intros. split; [apply temp_filename_inj|].
    by intros (-> & -> & ->).
Qed.

End TempNames.

(** ** The tool definition *)

(** C8: [asFullyQualifiedTool] makes a new tool object, at an address
    that was free, whose name is the server name, two underscores, and
    the raw tool name; the callable, the server name, the raw tool name,
    the description, the parameter schema, the trust flag, the
    configuration, the extension data and the message bus are those of
    the original; the original, and every other object of the store, is
    what it was. *)
Theorem asFullyQualifiedTool_frame (h : Heap) (this : nat) (t : DiscoveredMCPTool) :
  h !! this = Some t →
  ∃ fq h' t',
    asFullyQualifiedTool this h = Some (fq, h') ∧
    h !! fq = None ∧
    h' !! fq = Some t' ∧
    (∀ a o, h !! a = Some o → h' !! a = Some o) ∧
    h' !! this = Some t ∧
    name t' = serverName t +:+ "__" +:+ serverToolName t ∧
    mcpTool t' = mcpTool t ∧
    serverName t' = serverName t ∧
    serverToolName t' = serverToolName t ∧
    description t' = description t ∧
    parameterSchema t' = parameterSchema t ∧
    trust t' = trust t ∧
    cliConfig t' = cliConfig t ∧
    extensionName t' = extensionName t ∧
    extensionId t' = extensionId t ∧
    messageBus t' = messageBus t.
Proof.
  intros Hthis. unfold asFullyQualifiedTool, heap_new. rewrite Hthis.
  match goal with
  | |- context [h ++ [?o]] => set (t' := o); exists (length h), (h ++ [t']), t'
  end.
  split_and!; try done.
  - by apply lookup_ge_None_2.
  - by rewrite lookup_app_r, Nat.sub_diag.
  - intros a o Ha. by apply lookup_app_l_Some.
  - by apply lookup_app_l_Some.
  - unfold t', getFullyQualifiedPrefix. simpl.
    by rewrite JsStringFacts.app_assoc.
Qed.

(** * Worked inputs *)

Module Worked.
Import Sample.

(** ** Sanitizer *)

Example generateValidName_100 :
  let input :=
    "tool name with spaces and (brackets) that is much longer than the limit of sixty-three characters!!!" in
  String.length input = 100 ∧
  generateValidName input =
    "tool_name_with_spaces_and__b___mit_of_sixty-three_characters___".
Proof. split; vm_compute; reflexivity. Qed.

(** ** Gate *)

Lemma proceed_always_server_sticks_witness :
  getConfirmationDetails weather (world ∅) = ConfirmationRequired weather_details ∧
  getConfirmationDetails alerts_trusted (world ∅) ≠ NoConfirmationNeeded ∧
  getConfirmationDetails alerts_trusted
    (onConfirm weather_details ProceedAlwaysServer (world ∅))
    = NoConfirmationNeeded ∧
  onConfirm weather_details ProceedOnce (world ∅) = world ∅.
Proof.
  assert (getConfirmationDetails weather (world ∅)
          = ConfirmationRequired weather_details) as Hd by reflexivity.
  destruct (proceed_always_server_sticks (H := host) weather (world ∅)
              weather_details (world ∅) Hd) as (_ & Hlater & Honce).
  split_and!.
  - exact Hd.
  - unfold getConfirmationDetails.
    destruct (_ && _) eqn:Htrusted; [discriminate Htrusted|].
    destruct (_ || _) eqn:Hlisted; [|discriminate].
    vm_compute in Hlisted. discriminate Hlisted.
  - apply Hlater; [apply rtc_refl | reflexivity].
  - exact Honce.
Defined.

(** ** Executor *)

Lemma execute_remote_tool_error_witness :
  abort_fires_first (surroundings 0) = false ∧
  embedded_isError failing_response = Some (IsErrorBool true) ∧
  ∃ errorMessage w',
    execute (H := host) (surroundings 0) failing false (world ∅) =
      (Fulfilled
         {| llmContent := LlmString errorMessage;
            returnDisplay :=
              DisplayString "Error: MCP tool 'get_forecast' reported an error.";
            toolResult_error :=
              Some {| toolError_message := errorMessage;
                      toolError_type := MCP_TOOL_ERROR |} |}, w') ∧
    JsString.contains errorMessage "{name:get_forecast}" ∧
    JsString.contains errorMessage "[1 parts]" ∧
    JsString.contains errorMessage "get_forecast" ∧
    files w' = ∅ ∧ console_error w' = [].
Proof.
  split; [reflexivity|]. split; [reflexivity|].
  exact (execute_remote_tool_error (H := host) (surroundings 0) failing
           (world ∅) failing_response (IsErrorBool true)
           eq_refl eq_refl eq_refl (or_introl eq_refl)).
Defined.

Example execute_remote_tool_error_message :
  execute (H := host) (surroundings 0) failing false (world ∅) =
    (Fulfilled
       {| llmContent :=
            LlmString "MCP tool 'get_forecast' reported tool error for function call: {name:get_forecast} with response: [1 parts]";
          returnDisplay :=
            DisplayString "Error: MCP tool 'get_forecast' reported an error.";
          toolResult_error :=
            Some {| toolError_message :=
                      "MCP tool 'get_forecast' reported tool error for function call: {name:get_forecast} with response: [1 parts]";
                    toolError_type := MCP_TOOL_ERROR |} |},
     {| files := ∅; console_error := []; allowlist := ∅;
        callTool_calls :=
          [[ {| fc_name := "get_forecast";
                fc_args := [("city", JString "Oslo")] |} ]];
        abort_listeners := 0 |}).
Proof. vm_compute. reflexivity. Qed.

Example execute_aborted_makes_no_call :
  execute (H := host) (surroundings 0) failing true (world ∅) =
    (Rejected {| error_name := "AbortError";
                 error_message := "Tool call aborted" |}, world ∅).
Proof. reflexivity. Qed.

(** ** Normaliser *)

Lemma text_block_roundtrip_witness :
  let raw := mcp_response (Some "echo") (ContentArray [McpTextBlock "hello"]) None in
  response_content raw = ContentArray [McpTextBlock "hello"] ∧
  transformMcpContentToParts raw =
    [ {| part_text := Some "hello"; part_fileData := None;
         part_inlineData := None; part_functionResponse := None |} ] ∧
  getStringifiedResultForDisplay (H := host) (surroundings 0) raw (world ∅)
    = (DisplayString "hello", world ∅).
Proof.
  intros raw. split; [reflexivity|].
  exact (proj2 (proj2 (proj2
           (text_block_roundtrip (H := host) (surroundings 0) "hello")))
           raw (world ∅) eq_refl).
Defined.


(** A content of three image blocks of which the first and the last are
    dropped: the display payload is the image of the second, and each
    drop has left its lines on the console. *)
Example display_keeps_resolved_images :
  getStringifiedResultForDisplay (H := host) (surroundings 0)
    (mcp_response None
       (ContentArray
          [McpMedia missing_then_uri; McpMedia both_paths;
           McpMedia (image_block (Some "") None None)]) None)
    (world {["/a.png" := "bytes"]}) =
  (DisplayImageResult
     [{| image_filePath := "/a.png"; image_mimeType := "image/png";
         image_alt := None |}],
   {| files := {["/a.png" := "bytes"]};
      console_error :=
        ["Image file path does not exist: /missing.png, falling back to base64";
         "Image block 0 has no valid filePath, uri, or data field";
         "Image block 2 has no valid filePath, uri, or data field"];
      allowlist := ∅; callTool_calls := []; abort_listeners := 0 |}).
Proof. vm_compute. reflexivity. Qed.


Lemma display_image_result_only_if_resolved_witness :
  let raw :=
    mcp_response None
      (ContentArray [McpTextBlock "done";
                     McpMedia (image_block (Some "/tmp/x.png") None None)])
      None in
  let w := world {["/tmp/x.png" := "bytes"]} in
  let images :=
    [{| image_filePath := "/tmp/x.png"; image_mimeType := "image/png";
        image_alt := Some "done" |}] in
  (getStringifiedResultForDisplay (H := host) (surroundings 0) raw w).1 =
    DisplayImageResult images ∧
  images ≠ [] ∧
  ∃ mcpContent,
    response_content raw = ContentArray mcpContent ∧
    ∀ e, e ∈ images →
      ∃ m index wi,
        McpMedia m ∈ mcpContent ∧ media_type m = image ∧
        (resolve_image (H := host) (surroundings 0) (omap as_text mcpContent)
           m index wi).1 = Some e ∧
        existsSync (image_filePath e)
          (getStringifiedResultForDisplay (H := host) (surroundings 0) raw w).2
          = true.
Proof.
  intros raw w images.
  assert ((getStringifiedResultForDisplay (H := host) (surroundings 0) raw w).1
          = DisplayImageResult images) as Hd by (vm_compute; reflexivity).
  split; [exact Hd|].
  exact (proj1 (display_image_result_only_if_resolved (H := host)
                  (surroundings 0) raw w) images Hd).
Defined.

(** The end-to-end scenario: a text block and an image block with an
    existing file path. *)
Example end_to_end_parts :
  transformMcpContentToParts
    (mcp_response (Some "draw")
       (ContentArray [McpTextBlock "done";
                      McpMedia (image_block (Some "/tmp/x.png") None None)])
       None) =
  [ textPart "done";
    textPart "[Tool 'draw' provided the following image data with mime-type: image/png]";
    fileDataPart "file:///tmp/x.png" "image/png" ].
Proof. reflexivity. Qed.

(** ** Temporary file names *)

(** C9, the claim as written fails: two normalisations in the same tick,
    each with a base64 image at index 0, are given the same temporary
    file name; the second overwrites the file the first result refers
    to. *)
Lemma temp_names_collide_in_one_tick :
  let env := surroundings 1700000000000 in
  let raw d := mcp_response None (ContentArray [McpMedia (inline_only d)]) None in
  let first :=
    getStringifiedResultForDisplay (H := host) env (raw "Zmlyc3Q=") (world ∅) in
  let second :=
    getStringifiedResultForDisplay (H := host) env (raw "c2Vjb25k") first.2 in
  let path := "/tmp/gemini-cli-image-mcp-1700000000000-0.png" in
  first.1 =
    DisplayImageResult
      [{| image_filePath := path; image_mimeType := "image/png";
          image_alt := None |}] ∧
  second.1 = first.1 ∧
  files first.2 !! path = Some "Zmlyc3Q=" ∧
  files second.2 !! path = Some "c2Vjb25k".
Proof. split_and!; vm_compute; reflexivity. Qed.

Example temp_names_differ_by_index :
  temp_filename 1700000000000 0 "png" ≠ temp_filename 1700000000000 1 "png".
Proof. discriminate. Qed.

(** ** Tool definition *)

Lemma asFullyQualifiedTool_frame_witness :
  [forecast_tool] !! 0 = Some forecast_tool ∧
  name forecast_tool = "get_forecast" ∧
  ∃ fq h' t',
    asFullyQualifiedTool 0 [forecast_tool] = Some (fq, h') ∧
    h' !! fq = Some t' ∧
    name t' = "weather-server__get forecast" ∧
    description t' = "Forecast for a city" ∧
    h' !! 0 = Some forecast_tool.
Proof.
  split; [reflexivity|]. split; [reflexivity|].
  destruct (asFullyQualifiedTool_frame [forecast_tool] 0 forecast_tool eq_refl)
    as (fq & h' & t' & Hnew & _ & Hfq & _ & Hthis & Hname & _ & _ & _ & Hdesc & _).
  exists fq, h', t'. split_and!.
  - exact Hnew.
  - exact Hfq.
  - exact Hname.
  - exact Hdesc.
  - exact Hthis.
Defined.

End Worked.

(** * Further properties *)

(** ** Sanitizer *)

Section SanitizerMore.

Lemma map_app_string (f : ascii → ascii) (s t : string) :
  JsString.map f (s +:+ t) = JsString.map f s +:+ JsString.map f t.
Proof.
  induction s as [|c s IH]; [done|].
  simpl. rewrite IH. reflexivity.
Qed.

Lemma take_app_length (p s : string) :
  JsString.take (String.length p) (p +:+ s) = p.
Proof.
  induction p as [|c p IH]; simpl.
  - by destruct s.
  - by rewrite IH.
Qed.

Lemma drop_app_exact (p s : string) (n : nat) :
  n = String.length p → JsString.drop n (p +:+ s) = s.
Proof. intros ->. apply JsStringFacts.drop_app_length. Qed.

(** X1: the names [generateValidName] leaves as they are are exactly the
    names of at most 63 characters, all of them of the alphabet. *)
Theorem generateValidName_fixed_iff (s : string) :
  generateValidName s = s ↔
  JsString.forallb is_valid_name_char s = true ∧ String.length s ≤ 63.
Proof.
  split.
  - intros Hfix. split.
    + rewrite <-Hfix. apply generateValidName_valid.
    + pose proof (generateValidName_length s) as Hlen.
      rewrite Hfix in Hlen. case_bool_decide; lia.
  - intros [Hvalid Hlen].
    rewrite generateValidName_unfold; cbv zeta.
    rewrite (replace_invalid_chars_fixed _ Hvalid).
    by rewrite bool_decide_eq_false_2 by lia.
Qed.

(** X2: two long names that agree on their first 28 and their last 32
    characters are given the same name, whatever stands in between. *)
Theorem generateValidName_collision (front middle1 middle2 back : string) :
  String.length front = 28 → String.length back = 32 →
  3 < String.length middle1 → 3 < String.length middle2 →
  generateValidName (front +:+ middle1 +:+ back) =
  generateValidName (front +:+ middle2 +:+ back).
Proof.
  intros Hf Hb H1 H2.
  assert (∀ middle, 3 < String.length middle →
    generateValidName (front +:+ middle +:+ back) =
    replace_invalid_chars front +:+ "___" +:+ replace_invalid_chars back)
    as Hshape.
  { intros middle Hm.
    rewrite generateValidName_unfold; cbv zeta.
    rewrite replace_invalid_chars_length, !JsStringFacts.length_app.
    rewrite bool_decide_eq_true_2 by lia.
    unfold replace_invalid_chars. rewrite !map_app_string.
    set (f := λ c, if is_valid_name_char c then c else "_"%char).
    f_equal.
    - rewrite <-(take_app_length (JsString.map f front)
                   (JsString.map f middle +:+ JsString.map f back)) at 2.
      by rewrite JsStringFacts.length_map, Hf.
    - f_equal. rewrite <-JsStringFacts.app_assoc.
      apply drop_app_exact.
      rewrite JsStringFacts.length_app, !JsStringFacts.length_map. lia. }
  by rewrite (Hshape middle1 H1), (Hshape middle2 H2).
Qed.

End SanitizerMore.

(** ** Tool definition *)

Section FactoryMore.

(** X3: without a name override the tool is registered under the
    sanitized raw tool name: at most 63 characters, all of the alphabet,
    and the raw tool name itself when that is already such a name. *)
Theorem new_DiscoveredMCPTool_default_name mcp server toolname descr schema
    tr cfg extName extId bus :
  let t := new_DiscoveredMCPTool mcp server toolname descr schema tr None cfg
             extName extId bus in
  name t = generateValidName toolname ∧
  String.length (name t) ≤ 63 ∧
  JsString.forallb is_valid_name_char (name t) = true ∧
  (JsString.forallb is_valid_name_char toolname = true →
   String.length toolname ≤ 63 → name t = toolname).
Proof.
  cbv zeta. simpl. split_and!; [done| |apply generateValidName_valid|].
  - rewrite generateValidName_length. case_bool_decide; lia.
  - intros Hv Hl. rewrite generateValidName_unfold; cbv zeta.
    rewrite (replace_invalid_chars_fixed _ Hv).
    by rewrite bool_decide_eq_false_2 by lia.
Qed.

(** X4: the fully qualified name is the server name, two underscores and
    the raw tool name as they are, not passed through the sanitizer: its
    length is the sum of theirs plus two, and it consists of characters
    of the alphabet exactly when both names do. *)
Theorem asFullyQualifiedTool_name_not_sanitized (h : Heap) (this fq : nat)
    (h' : Heap) (t t' : DiscoveredMCPTool) :
  h !! this = Some t →
  asFullyQualifiedTool this h = Some (fq, h') →
  h' !! fq = Some t' →
  String.length (name t') =
    String.length (serverName t) + 2 + String.length (serverToolName t) ∧
  JsString.forallb is_valid_name_char (name t') =
    JsString.forallb is_valid_name_char (serverName t) &&
    JsString.forallb is_valid_name_char (serverToolName t).
Proof.
  intros Hthis. unfold asFullyQualifiedTool, heap_new. rewrite Hthis.
  intros [= <- <-]. rewrite lookup_app_r, Nat.sub_diag by done.
  intros [= <-]. unfold getFullyQualifiedPrefix. simpl.
  rewrite !JsStringFacts.length_app, !JsStringFacts.forallb_app.
  split; [simpl; lia|]. by rewrite andb_true_r.
Qed.

(** X5: qualifying is idempotent: the fully qualified tool of a fully
    qualified tool is a tool with the same contents. *)
Theorem asFullyQualifiedTool_idempotent (h : Heap) (this fq : nat) (h' : Heap) :
  asFullyQualifiedTool this h = Some (fq, h') →
  ∃ fq2 h'',
    asFullyQualifiedTool fq h' = Some (fq2, h'') ∧
    fq2 ≠ fq ∧ h'' !! fq2 = h' !! fq ∧ h'' !! fq = h' !! fq.
Proof.
  unfold asFullyQualifiedTool, heap_new.
  destruct (h !! this) as [t|] eqn:Hthis; [|done].
  intros [= <- <-]. rewrite lookup_app_r, Nat.sub_diag by done. simpl.
  eexists _, _. split; [reflexivity|]. split_and!.
  - rewrite length_app. simpl. lia.
  - rewrite lookup_app_r by done. rewrite Nat.sub_diag. done.
  - rewrite lookup_app_l.
    + rewrite lookup_app_r, Nat.sub_diag by done. done.
    + rewrite length_app. simpl. lia.
Qed.

(** X6: a tool and its fully qualified tool make the same invocations:
    for a tool made by the constructor, [createInvocation] of the
    qualified tool is [createInvocation] of the tool itself, and the
    composite name the invocation carries for policy checks is the fully
    qualified name. *)
Theorem createInvocation_of_qualified (h : Heap) (this : nat) mcp server
    toolname descr schema tr override cfg extName extId bus params mb :
  let t := new_DiscoveredMCPTool mcp server toolname descr schema tr override
             cfg extName extId bus in
  h !! this = Some t →
  ∃ fq h' t',
    asFullyQualifiedTool this h = Some (fq, h') ∧ h' !! fq = Some t' ∧
    createInvocation t' params mb = createInvocation t params mb ∧
    inv_toolName (createInvocation t params mb) = name t'.
Proof.
  cbv zeta. intros Hthis. unfold asFullyQualifiedTool, heap_new.
  rewrite Hthis. eexists _, _, _. split; [reflexivity|].
  rewrite lookup_app_r, Nat.sub_diag by done.
  split; [reflexivity|]. split; [reflexivity|].
  unfold createInvocation, new_DiscoveredMCPToolInvocation,
    getFullyQualifiedPrefix. simpl.
  by rewrite JsStringFacts.app_assoc.
Qed.

End FactoryMore.

(** ** Confirmation gate *)

Section GateMore.
Context `{Host}.

Lemma server_key_not_tool_key (server toolname : string) :
  server ≠ server +:+ "." +:+ toolname.
Proof.
  intros Heq. apply (f_equal String.length) in Heq.
  rewrite !JsStringFacts.length_app in Heq. simpl in Heq. lia.
Qed.

Lemma tool_key_inj (server tool1 tool2 : string) :
  server +:+ "." +:+ tool1 = server +:+ "." +:+ tool2 → tool1 = tool2.
Proof.
  intros Heq. apply (inj (String.app server)) in Heq.
  by apply (inj (String.app ".")) in Heq.
Qed.

(** X7: after [onConfirm] ran with [ProceedAlwaysTool] for an invocation
    of tool [T] of server [S], every later decision of the session for
    an invocation of [T] of [S] is "no confirmation needed", whatever
    its flags are. *)
Theorem proceed_always_tool_sticks this w0 details w :
  getConfirmationDetails this w0 = ConfirmationRequired details →
  ∀ w' that,
    later_in_session (onConfirm details ProceedAlwaysTool w) w' →
    inv_serverName that = inv_serverName this →
    inv_serverToolName that = inv_serverToolName this →
    getConfirmationDetails that w' = NoConfirmationNeeded.
Proof.
  intros Hd w' that Hlater Hs Ht.
  assert (inv_serverName this +:+ "." +:+ inv_serverToolName this ∈ allowlist w')
    as Hin.
  { apply (later_in_session_allowlist _ _ Hlater).
    rewrite (onConfirm_cases _ _ _ _ _ Hd). simpl. set_solver. }
  unfold getConfirmationDetails. rewrite Hs, Ht.
  rewrite (bool_decide_eq_true_2 (_ +:+ _ ∈ _) Hin), orb_true_r.
  by destruct (_ && _).
Qed.

(** X8: [ProceedAlwaysTool] is for that tool only: an invocation of
    another tool of the same server that needed a confirmation before
    needs one afterwards. *)
Theorem proceed_always_tool_leaves_siblings this w0 details w that asked :
  getConfirmationDetails this w0 = ConfirmationRequired details →
  inv_serverName that = inv_serverName this →
  inv_serverToolName that ≠ inv_serverToolName this →
  getConfirmationDetails that w = ConfirmationRequired asked →
  ∃ asked',
    getConfirmationDetails that (onConfirm details ProceedAlwaysTool w)
      = ConfirmationRequired asked' ∧
    details_toolName asked' = inv_serverToolName that.
Proof.
  intros Hd Hs Ht. rewrite (onConfirm_cases _ _ _ _ _ Hd).
  unfold getConfirmationDetails. rewrite Hs.
  destruct (_ && _); [done|].
  destruct (bool_decide (inv_serverName this ∈ allowlist w)) eqn:Hserver;
    [done|].
  destruct (bool_decide (inv_serverName this +:+ "." +:+ inv_serverToolName that
                         ∈ allowlist w)) eqn:Htool; [done|].
  intros _. simpl.
  apply bool_decide_eq_false in Hserver, Htool.
  rewrite !bool_decide_eq_false_2.
  - simpl. by eexists.
  - intros [Heq%elem_of_singleton|Hin]%elem_of_union; [|done].
    by apply tool_key_inj in Heq.
  - intros [Heq%elem_of_singleton|Hin]%elem_of_union; [|done].
    by apply server_key_not_tool_key in Heq.
Qed.

(** X9: the allowlist holds server keys and tool keys in one set of
    strings: after [ProceedAlwaysTool] for tool [T] of server [S], every
    invocation of a server that is named [S.T] needs no confirmation
    either, for any of its tools. *)
Theorem tool_key_allows_server_of_that_name this w0 details w that :
  getConfirmationDetails this w0 = ConfirmationRequired details →
  inv_serverName that =
    inv_serverName this +:+ "." +:+ inv_serverToolName this →
  getConfirmationDetails that (onConfirm details ProceedAlwaysTool w)
    = NoConfirmationNeeded.
Proof.
  intros Hd Hname.
  apply allowlisted_server_no_confirmation.
  rewrite (onConfirm_cases _ _ _ _ _ Hd), Hname. simpl. set_solver.
Qed.

(** X10: the allowlist only grows during a session, and answering a
    confirmation a second time the same way adds nothing. *)
Theorem allowlist_monotone_idempotent this w0 details :
  getConfirmationDetails this w0 = ConfirmationRequired details →
  (∀ w w', later_in_session w w' → allowlist w ⊆ allowlist w') ∧
  (∀ outcome w,
     allowlist (onConfirm details outcome (onConfirm details outcome w)) =
     allowlist (onConfirm details outcome w)) ∧
  (∀ outcome w,
     files (onConfirm details outcome w) = files w ∧
     console_error (onConfirm details outcome w) = console_error w ∧
     callTool_calls (onConfirm details outcome w) = callTool_calls w).
Proof.
  intros Hd. split_and!.
  - apply later_in_session_allowlist.
  - intros outcome w. rewrite !(onConfirm_cases _ _ _ _ _ Hd).
    destruct outcome; simpl; try done;
      by rewrite (assoc_L (∪)), (idemp_L (∪)).
  - intros outcome w. rewrite (onConfirm_cases _ _ _ _ _ Hd).
    by destruct outcome.
Qed.

(** X11: the trust flag counts only together with a trusted folder:
    with both, no confirmation is needed whatever the allowlist holds;
    without a configuration, or in a folder that is not trusted, a
    trusted tool of a server that is not allowlisted still needs a
    confirmation, and the request shows the server name, the raw tool
    name and the display name of the invocation. *)
Theorem trust_needs_trusted_folder that w :
  (inv_cliConfig that = Some {| isTrustedFolder := true |} →
   inv_trust that = Some true →
   getConfirmationDetails that w = NoConfirmationNeeded) ∧
  (default false (isTrustedFolder <$> inv_cliConfig that) = false →
   inv_serverName that ∉ allowlist w →
   inv_serverName that +:+ "." +:+ inv_serverToolName that ∉ allowlist w →
   ∃ asked,
     getConfirmationDetails that w = ConfirmationRequired asked ∧
     details_serverName asked = inv_serverName that ∧
     details_toolName asked = inv_serverToolName that ∧
     details_toolDisplayName asked = inv_displayName that).
Proof.
  unfold getConfirmationDetails. split.
  - by intros -> ->.
  - intros -> Hs Ht. simpl.
    rewrite !bool_decide_eq_false_2 by done. simpl. by eexists.
Qed.

End GateMore.

(** ** Executor *)

Section ExecutorMore.
Context `{Host}.

(** X12: when the call was started and does not bring back a response,
    [execute] rejects and normalises nothing: with the [AbortError] when
    the abort event fires first, whatever the tool would have answered,
    and with the tool's own rejection reason, unchanged, when the tool
    rejects.  In both cases the one call was made, the listener is
    removed again, and files, console and allowlist are as before. *)
Theorem execute_rejections env this w :
  (abort_fires_first env = true →
   execute env this false w = (Rejected AbortError, after_one_call this w)) ∧
  (abort_fires_first env = false →
   ∀ reason,
     callTool (inv_mcpTool this)
       [ {| fc_name := inv_serverToolName this; fc_args := inv_params this |} ]
       = Rejected reason →
     execute env this false w = (Rejected reason, after_one_call this w)).
Proof.
  unfold execute, race_callTool. split.
  - by intros ->.
  - intros -> reason ->. done.
Qed.

(** X13: when the call brings back a response, the result carries an
    error exactly when the response has the embedded error flag;
    without the flag the model content is the list of parts of
    [transformMcpContentToParts] and the display payload that of
    [getStringifiedResultForDisplay], run in the world after the call. *)
Theorem execute_fulfilled env this w rawResponseParts :
  abort_fires_first env = false →
  callTool (inv_mcpTool this)
    [ {| fc_name := inv_serverToolName this; fc_args := inv_params this |} ]
    = Fulfilled rawResponseParts →
  ∃ result w',
    execute env this false w = (Fulfilled result, w') ∧
    (is_Some (toolResult_error result) ↔ isMCPToolError rawResponseParts = true) ∧
    (isMCPToolError rawResponseParts = false →
     llmContent result = LlmParts (transformMcpContentToParts rawResponseParts) ∧
     (returnDisplay result, w') =
       getStringifiedResultForDisplay env rawResponseParts
         (after_one_call this w)).
Proof.
  intros Hrace Hcall. unfold execute, race_callTool.
  rewrite Hrace, Hcall.
  destruct (isMCPToolError rawResponseParts) eqn:Herr.
  - eexists _, _. split; [reflexivity|]. simpl. split; [|done].
    split; [done | by eexists].
  - change (removeEventListener
              (record_callTool
                 [ {| fc_name := inv_serverToolName this;
                      fc_args := inv_params this |} ]
                 (addEventListener w)))
      with (after_one_call this w).
    destruct (getStringifiedResultForDisplay env rawResponseParts
                (after_one_call this w)) as [display w'].
    eexists _, _. split; [reflexivity|]. simpl. split; [|done].
    split; [by intros [? [=]] | done].
Qed.

(** X14: [isMCPToolError] looks at the first element of the response
    only, and the string form of the flag is the exact string ["true"]:
    an empty response, a flag in a later element, the boolean [false]
    and any other string are no tool error. *)
Theorem isMCPToolError_first_element_only first rest :
  isMCPToolError (first :: rest) = isMCPToolError [first] ∧
  isMCPToolError [] = false ∧
  (∀ tool c s, s ≠ "true" →
     isMCPToolError
       (mcp_response tool c (Some {| isError := Some (IsErrorString s) |}) ++ rest)
     = false) ∧
  (∀ tool c,
     isMCPToolError
       (mcp_response tool c (Some {| isError := Some (IsErrorBool false) |}) ++ rest)
     = false) ∧
  (∀ tool c, isMCPToolError (mcp_response tool c None ++ rest) = false).
Proof.
  split_and!; try done.
  intros tool c s Hs. unfold isMCPToolError. simpl.
  by apply bool_decide_eq_false_2.
Qed.

End ExecutorMore.

(** ** Content normaliser: model parts *)

Section PartsMore.

Lemma transformImageAudioBlock_unfold block toolName :
  ∃ payload,
    transformImageAudioBlock block toolName =
      [ textPart ("[Tool '" +:+ toolName +:+ "' provided the following " +:+
                  MediaType_string (media_type block) +:+
                  " data with mime-type: " +:+ mimeType block +:+ "]");
        payload ] ∧
    is_model_part payload = true.
Proof.
  unfold transformImageAudioBlock. eexists. split; [reflexivity|].
  repeat case_match; done.
Qed.

(** An optional string that is absent or empty is falsy. *)
Lemma truthy_absent_or_empty (s : option string) :
  s = None ∨ s = Some "" → truthy s = false.
Proof. by intros [->| ->]. Qed.

(** X15: a media block, image or audio, always becomes two parts.  The
    first has only a [text]: the line naming the tool, the kind of block
    and the mime type.  The second is the payload.  With a [filePath]
    that is not empty it has only a [fileData], with the block's mime
    type and a [fileUri] that starts with [file://]: the [filePath]
    itself when that starts with [file://], and [file://] followed by
    the [filePath] when it does not.  Without such a [filePath], a [uri]
    that is not empty gives only a [fileData] with that very [uri];
    without that too, [data] that is not empty gives only an
    [inlineData] with the mime type and the data; and with none of the
    three the payload is only the [text]
    ["[No image payload provided]"]. *)
Theorem transformImageAudioBlock_payload block toolName :
  ∃ payload,
    transformImageAudioBlock block toolName =
      [ {| part_text :=
             Some ("[Tool '" +:+ toolName +:+ "' provided the following " +:+
                   match media_type block with
                   | image => "image"
                   | audio => "audio"
                   end +:+
                   " data with mime-type: " +:+ mimeType block +:+ "]");
           part_fileData := None; part_inlineData := None;
           part_functionResponse := None |};
        payload ] ∧
    (∀ p, filePath block = Some p → p ≠ "" →
       ∃ u,
         payload =
           {| part_text := None;
              part_fileData :=
                Some {| fileUri := u; fileData_mimeType := mimeType block |};
              part_inlineData := None; part_functionResponse := None |} ∧
         (∃ rest, u = "file://" +:+ rest) ∧
         ((∃ rest, p = "file://" +:+ rest) → u = p) ∧
         ((∀ rest, p ≠ "file://" +:+ rest) → u = "file://" +:+ p)) ∧
    (filePath block = None ∨ filePath block = Some "" →
     (∀ u, uri block = Some u → u ≠ "" →
        payload =
          {| part_text := None;
             part_fileData :=
               Some {| fileUri := u; fileData_mimeType := mimeType block |};
             part_inlineData := None; part_functionResponse := None |}) ∧
     (uri block = None ∨ uri block = Some "" →
      (∀ d, data block = Some d → d ≠ "" →
         payload =
           {| part_text := None; part_fileData := None;
              part_inlineData :=
                Some {| blob_mimeType := mimeType block; blob_data := d |};
              part_functionResponse := None |}) ∧
      (data block = None ∨ data block = Some "" →
       payload =
         {| part_text := Some "[No image payload provided]";
            part_fileData := None; part_inlineData := None;
            part_functionResponse := None |}))).
Proof.
  unfold transformImageAudioBlock. eexists. split; [reflexivity|]. split.
  - intros p -> Hp. rewrite (truthy_Some p Hp). cbn [andb default id].
    destruct (JsString.startsWith "file://" p) eqn:Hs.
    + exists p. cbv iota. rewrite (truthy_Some p Hp). cbn [default id].
      split_and!; [done|by apply JsStringFacts.startsWith_rest|done|].
      intros Hno. apply JsStringFacts.startsWith_rest in Hs as [rest ->].
      by destruct (Hno rest).
    + exists ("file://" +:+ p). cbv iota. rewrite truthy_Some by done.
      cbn [default id].
      split_and!; [done|by exists p| |done].
      intros [rest ->]. by rewrite JsStringFacts.startsWith_app in Hs.
  - intros Hf%truthy_absent_or_empty. rewrite Hf. cbn [andb]. cbv iota. split.
    + intros u -> Hu. by rewrite (truthy_Some u Hu).
    + intros Hu%truthy_absent_or_empty. rewrite Hu. split.
      * intros d -> Hd. by rewrite (truthy_Some d Hd).
      * intros Hd%truthy_absent_or_empty. by rewrite Hd.
Qed.

Lemma block_parts_model toolName block p :
  Some p ∈ flatMap_parts
    [match block with
     | McpTextBlock text => OnePart (transformTextBlock text)
     | McpMedia m => ManyParts (transformImageAudioBlock m toolName)
     | McpResourceBlock r => transformResourceBlock r toolName
     | McpResourceLinkBlock u t n => OnePart (transformResourceLinkBlock u t n)
     | McpOtherBlock _ => NullPart
     end] →
  is_model_part p = true.
Proof.
  unfold flatMap_parts. simpl. rewrite app_nil_r.
  destruct block as [text|m|r|u t n|ty].
  - simpl. by intros [= ->]%list_elem_of_singleton.
  - destruct (transformImageAudioBlock_unfold m toolName) as (payload & -> & Hp).
    simpl. rewrite !elem_of_cons, elem_of_nil.
    by intros [[= ->]|[[= ->]|[]]].
  - unfold transformResourceBlock.
    destruct (truthy (resource_text r));
      [simpl; by intros [= ->]%list_elem_of_singleton|].
    destruct (truthy (resource_blob r)); simpl.
    + rewrite !elem_of_cons, elem_of_nil. by intros [[= ->]|[[= ->]|[]]].
    + by intros [=]%list_elem_of_singleton.
  - simpl. by intros [= ->]%list_elem_of_singleton.
  - simpl. by intros [=]%list_elem_of_singleton.
Qed.

(** X16: every part handed to the model is a text part, a file
    reference or inline data, exactly one of the three, and never a
    function response; and a content list of [n] blocks gives at most
    [2 n] parts. *)
Theorem transformMcpContentToParts_parts sdkResponse :
  (∀ p, p ∈ transformMcpContentToParts sdkResponse → is_model_part p = true) ∧
  (∀ mcpContent,
     response_content sdkResponse = ContentArray mcpContent →
     length (transformMcpContentToParts sdkResponse) ≤ 2 * length mcpContent).
Proof.
  unfold transformMcpContentToParts.
  set (toolName := default "unknown tool" _).
  destruct (response_content sdkResponse) as [|v|mcpContent];
    try (split; [by intros p [= ->]%list_elem_of_singleton | done]).
  set (callback := λ block : McpContentBlock, _).
  split.
  - intros p [r [Hr Hid]]%list_elem_of_omap. simpl in Hid. subst r.
    unfold flatMap_parts in Hr.
    apply list_elem_of_bind in Hr as (res & Hp & Hres).
    apply list_elem_of_fmap in Hres as (block & -> & _).
    apply (block_parts_model toolName block).
    unfold flatMap_parts. simpl. by rewrite app_nil_r.
  - intros ? [= <-]. clear.
    induction mcpContent as [|block rest IH]; [done|].
    unfold flatMap_parts in *. rewrite fmap_cons, bind_cons, omap_app, length_app.
    assert (length (omap id
              (match callback block with
               | OnePart p => [Some p]
               | ManyParts ps => Some <$> ps
               | NullPart => [None]
               end)) ≤ 2) as Hblock.
    { unfold callback. destruct block as [text|m|r|u t n|ty].
      - simpl. lia.
      - destruct (transformImageAudioBlock_unfold m toolName)
          as (payload & -> & _). simpl. lia.
      - unfold transformResourceBlock.
        destruct (truthy (resource_text r)); [simpl; lia|].
        destruct (truthy (resource_blob r)); simpl; lia.
      - simpl. lia.
      - simpl. lia. }
    simpl length. lia.
Qed.

End PartsMore.

(** ** Content normaliser: display payload *)

Section DisplayMore.
Context `{Host}.

Lemma resolve_image_Some_fields env textParts block index w e :
  (resolve_image env textParts block index w).1 = Some e →
  image_alt e = alt_of textParts ∧ image_mimeType e = mimeType block.
Proof.
  unfold resolve_image. repeat case_match; simpl; try done;
    by intros [= <-].
Qed.

Lemma resolve_image_frame env textParts block index w :
  let w' := (resolve_image env textParts block index w).2 in
  console_error w `prefix_of` console_error w' ∧
  callTool_calls w' = callTool_calls w ∧
  abort_listeners w' = abort_listeners w.
Proof.
  cbv zeta. unfold resolve_image.
  destruct (if truthy (candidate_path block) then _ else false);
    [by split_and!|].
  match goal with
  | |- context [if truthy (data block) then _ else (None, log_error _ ?w0)] =>
      set (w1 := w0)
  end.
  assert (console_error w `prefix_of` console_error w1 ∧
          callTool_calls w1 = callTool_calls w ∧
          abort_listeners w1 = abort_listeners w) as (Hp & Hc & Hl).
  { unfold w1. destruct (truthy (candidate_path block)); simpl;
      split_and!; try done. by apply prefix_app_r. }
  destruct (truthy (data block)); [destruct (writeFileSync_throws env _)|];
    simpl; split_and!; try done; by apply prefix_app_r.
Qed.

Lemma map_images_frame env textParts blocks index w :
  let w' := (map_images env textParts blocks index w).2 in
  console_error w `prefix_of` console_error w' ∧
  callTool_calls w' = callTool_calls w ∧
  abort_listeners w' = abort_listeners w.
Proof.
  cbv zeta. revert index w.
  induction blocks as [|b bs IH]; intros index w; simpl; [done|].
  destruct (resolve_image_frame env textParts b index w) as (Hp & Hc & Hl).
  destruct (resolve_image env textParts b index w) as [e w1].
  destruct (IH (S index) w1) as (Hp' & Hc' & Hl').
  destruct (map_images env textParts bs (S index) w1) as [es w2].
  simpl in *. split_and!; [by etrans|congruence..].
Qed.

Lemma map_images_all_found env textParts blocks index w :
  (∀ m, m ∈ blocks →
     ∃ p, candidate_path m = Some p ∧ p ≠ "" ∧ existsSync p w = true) →
  map_images env textParts blocks index w =
    ((λ m, Some (image_entry textParts m (default "" (candidate_path m))))
       <$> blocks, w).
Proof.
  revert index. induction blocks as [|b bs IH]; intros index Hall; [done|].
  simpl. destruct (Hall b) as (p & Hc & Hne & Hex); [left|].
  rewrite (resolve_image_found env textParts b index w p Hc Hne Hex).
  rewrite IH by (intros m Hm; apply Hall; by right).
  by rewrite Hc.
Qed.

Lemma omap_id_Some {A B} (f : A → B) (l : list A) :
  omap id ((λ x, Some (f x)) <$> l) = f <$> l.
Proof. induction l as [|x l IH]; csimpl; [done | by f_equal]. Qed.

Lemma omap_id_length {A} (l : list (option A)) : length (omap id l) ≤ length l.
Proof. induction l as [|[x|] l IH]; csimpl; lia. Qed.

(** X17: the caption is one for the whole response: every image of an
    [ImageResult] carries as [alt] the texts of all text blocks of the
    content, in their order, with one line feed between each two, and no
    [alt] when there is no text block; it carries the mime type of an
    image block of the content; there are at most as many images as
    image blocks. *)
Theorem display_images_share_caption env rawResponse w mcpContent images :
  response_content rawResponse = ContentArray mcpContent →
  (getStringifiedResultForDisplay env rawResponse w).1
    = DisplayImageResult images →
  let texts :=
    omap (λ block, match block with
                   | McpTextBlock text => Some text
                   | _ => None
                   end) mcpContent in
  length images ≤ length (omap as_image_block mcpContent) ∧
  ∀ e, e ∈ images →
    image_alt e = alt_of (omap as_text mcpContent) ∧
    image_alt e =
      match texts with
      | [] => None
      | _ => Some (String.concat (String (ascii_of_nat 10) EmptyString) texts)
      end ∧
    (∀ t, texts = [t] → image_alt e = Some t) ∧
    (∀ t1 t2, texts = [t1; t2] →
       image_alt e = Some (t1 +:+ String (ascii_of_nat 10) t2)) ∧
    ∃ m, McpMedia m ∈ mcpContent ∧ media_type m = image ∧
         image_mimeType e = mimeType m.
Proof.
  intros Hc. cbv zeta. fold as_text.
  unfold getStringifiedResultForDisplay. rewrite Hc.
  destruct (omap as_image_block mcpContent) as [|b bs] eqn:Himgs; [done|].
  pose proof (map_images_elem env (omap as_text mcpContent) (b :: bs) 0 w)
    as Helem.
  pose proof (map_images_length env (omap as_text mcpContent) (b :: bs) 0 w)
    as Hlen.
  destruct (map_images env (omap as_text mcpContent) (b :: bs) 0 w) as [es w1].
  destruct (omap id es) as [|i l] eqn:Hes; [done|].
  simpl. intros [= <-]. split.
  - rewrite <-Hes. etrans; [apply omap_id_length|]. simpl in Hlen. by rewrite Hlen.
  - intros e He.
    assert (Some e ∈ es) as Hin.
    { rewrite <-Hes in He.
      apply list_elem_of_omap in He as (r & Hr & Hid). simpl in Hid. by subst r. }
    destruct (Helem e Hin) as (k & m & wi & Hk & Hres & _).
    destruct (resolve_image_Some_fields _ _ _ _ _ _ Hres) as [Halt Hmime].
    split_and!.
    + done.
    + rewrite Halt. unfold alt_of.
      destruct (omap as_text mcpContent); [done|].
      by rewrite JsStringFacts.join_concat.
    + intros t Ht. by rewrite Halt, Ht.
    + intros t1 t2 Ht. by rewrite Halt, Ht.
    + assert (m ∈ omap as_image_block mcpContent) as Hm.
      { rewrite Himgs. by eapply list_elem_of_lookup_2. }
      apply list_elem_of_omap in Hm as (block & Hblock & Hsel).
      apply as_image_block_Some in Hsel as [-> Himage].
      by exists m.
Qed.

(** X18: what making the display payload does to the world: the console
    gets lines at its end at most, no file disappears, and the allowlist,
    the record of calls and the listeners are left alone; a response
    whose content is no list, or has no image block, changes nothing at
    all. *)
Theorem display_effects env rawResponse w :
  let w' := (getStringifiedResultForDisplay env rawResponse w).2 in
  console_error w `prefix_of` console_error w' ∧
  (∀ p, existsSync p w = true → existsSync p w' = true) ∧
  allowlist w' = allowlist w ∧
  callTool_calls w' = callTool_calls w ∧
  abort_listeners w' = abort_listeners w ∧
  ((∀ mcpContent, response_content rawResponse = ContentArray mcpContent →
                  omap as_image_block mcpContent = []) →
   w' = w).
Proof.
  cbv zeta. pose proof (display_allowlist env rawResponse w) as Hallow.
  revert Hallow. unfold getStringifiedResultForDisplay.
  assert (console_error w `prefix_of` console_error w ∧
          (∀ p, existsSync p w = true → existsSync p w = true) ∧
          allowlist w = allowlist w ∧ callTool_calls w = callTool_calls w ∧
          abort_listeners w = abort_listeners w) as Hsame by done.
  destruct (response_content rawResponse) as [|v|mcpContent];
    [intros _; simpl; destruct Hsame as (?&?&?&?&?); by split_and!..|].
  destruct (omap as_image_block mcpContent) as [|b bs] eqn:Himgs;
    [intros _; simpl; destruct Hsame as (?&?&?&?&?); by split_and!|].
  pose proof (map_images_frame env (omap as_text mcpContent) (b :: bs) 0 w)
    as (Hp & Hc & Hl).
  pose proof (map_images_exists_mono env (omap as_text mcpContent) (b :: bs) 0 w)
    as Hmono.
  destruct (map_images env (omap as_text mcpContent) (b :: bs) 0 w) as [es w1].
  assert (∀ d : ToolResultDisplay,
    allowlist (d, w1).2 = allowlist w →
    console_error w `prefix_of` console_error (d, w1).2 ∧
    (∀ p, existsSync p w = true → existsSync p (d, w1).2 = true) ∧
    allowlist (d, w1).2 = allowlist w ∧
    callTool_calls (d, w1).2 = callTool_calls w ∧
    abort_listeners (d, w1).2 = abort_listeners w ∧
    ((∀ c, ContentArray mcpContent = ContentArray c →
           omap as_image_block c = []) → (d, w1).2 = w)) as Hfinish.
  { intros d Hallow. simpl in *. split_and!; try done.
    intros Hnone. specialize (Hnone mcpContent eq_refl). congruence. }
  destruct (omap id es); apply Hfinish.
Qed.

(** X19: when the path of every image block is there, the display
    payload lists every image block, in the order of the content, each
    with its path, and the world is not touched: nothing is logged and
    nothing written. *)
Theorem display_all_paths_exist env rawResponse w mcpContent :
  response_content rawResponse = ContentArray mcpContent →
  omap as_image_block mcpContent ≠ [] →
  (∀ m, m ∈ omap as_image_block mcpContent →
     ∃ p, candidate_path m = Some p ∧ p ≠ "" ∧ existsSync p w = true) →
  getStringifiedResultForDisplay env rawResponse w =
    (DisplayImageResult
       ((λ m, image_entry (omap as_text mcpContent) m
                (default "" (candidate_path m)))
          <$> omap as_image_block mcpContent), w).
Proof.
  intros Hc Hne Hall. unfold getStringifiedResultForDisplay. rewrite Hc.
  destruct (omap as_image_block mcpContent) as [|b bs] eqn:Himgs; [done|].
  rewrite (map_images_all_found env _ (b :: bs) 0 w Hall).
  by rewrite omap_id_Some.
Qed.

(** X20: an image block that has base64 data and neither a file path
    nor a URI is written to the temporary file without any log line; the
    image's path is that file, and reading the file back gives the
    decoded data. *)
Theorem base64_image_materialized env textParts block index w d :
  truthy (filePath block) = false → truthy (uri block) = false →
  data block = Some d → d ≠ "" →
  writeFileSync_throws env (temp_path env index block) = false →
  let result := resolve_image env textParts block index w in
  result.1 = Some (image_entry textParts block (temp_path env index block)) ∧
  files result.2 !! temp_path env index block = Some (Buffer_from_base64 d) ∧
  (∀ p, p ≠ temp_path env index block → files result.2 !! p = files w !! p) ∧
  console_error result.2 = console_error w.
Proof.
  intros Hf Hu Hd Hne Hw. cbv zeta. unfold resolve_image, candidate_path.
  rewrite Hf, Hu, Hd, (truthy_Some d Hne). simpl.
  unfold temp_path in Hw. rewrite Hw. simpl.
  split_and!; [done| |intros p Hp|done].
  - apply lookup_insert_eq.
  - by apply lookup_insert_ne.
Qed.

Lemma resolve_image_write_fails env textParts block index w d :
  data block = Some d → d ≠ "" →
  writeFileSync_throws env (temp_path env index block) = true →
  (truthy (candidate_path block) = false →
   resolve_image env textParts block index w =
     (None, log_error write_failed_message w)) ∧
  (∀ p, candidate_path block = Some p → p ≠ "" → existsSync p w = false →
     resolve_image env textParts block index w =
       (None,
        log_error write_failed_message (log_error (missing_path_message p) w))).
Proof.
  intros Hd Hne Hw. unfold temp_path in Hw. split.
  - intros Hc. unfold resolve_image.
    rewrite Hc, Hd, (truthy_Some d Hne). simpl. by rewrite Hw.
  - intros p Hc Hp Hex. unfold resolve_image.
    rewrite Hc, Hd, !truthy_Some by done. simpl default.
    by rewrite Hex, Hw.
Qed.

(** A response whose only block is an image that is dropped is shown as
    the text summary of that block. *)
Lemma display_single_dropped env block w w' :
  media_type block = image → is_Some (data block) →
  resolve_image env [] block 0 w = (None, w') →
  ∀ tool e,
    getStringifiedResultForDisplay env
      (mcp_response tool (ContentArray [McpMedia block]) e) w =
    (DisplayString ("[Image: " +:+ mimeType block +:+ "]"), w').
Proof.
  intros Himage [d Hd] Hres tool e.
  unfold getStringifiedResultForDisplay.
  rewrite response_content_mcp_response.
  assert (omap as_image_block [McpMedia block] = [block]) as ->.
  { simpl. rewrite Himage, Hd. by rewrite !orb_true_r. }
  assert (omap as_text [McpMedia block] = []) as -> by done.
  simpl map_images. rewrite Hres. simpl. by rewrite Himage.
Qed.

(** X21: an image block with base64 [data] whose temporary file cannot
    be written.  If the block has no path to try (no [filePath] and no
    [uri], or empty ones), it is dropped and the one line logged is
    ["Failed to write image temp file from MCP data"].  If it has a path
    to try (its [filePath], or without one its [uri], less a leading
    [file://]) and no file is there, it is dropped too, after two lines:
    the missing path, then the failed write.  Either way no file
    changes, and a response whose only block is such an image is
    displayed as the text summary ["[Image: <mime type>]"].  The image
    is kept only when the path to try exists, and then nothing is logged
    or written. *)
Theorem base64_image_write_fails env textParts block index w d :
  data block = Some d → d ≠ "" →
  writeFileSync_throws env (temp_path env index block) = true →
  let result := resolve_image env textParts block index w in
  let failed := "Failed to write image temp file from MCP data" in
  let missing p :=
    "Image file path does not exist: " +:+ p +:+ ", falling back to base64" in
  let shown_as_text w' :=
    ∀ tool e,
      getStringifiedResultForDisplay env
        (mcp_response tool (ContentArray [McpMedia block]) e) w =
      (DisplayString ("[Image: " +:+ mimeType block +:+ "]"), w') in
  (filePath block = None ∨ filePath block = Some "" →
   uri block = None ∨ uri block = Some "" →
   result = (None, log_error failed w) ∧
   (media_type block = image → index = 0 →
    shown_as_text (log_error failed w))) ∧
  (∀ p,
     filePath block = Some p ∨
     ((filePath block = None ∨ filePath block = Some "") ∧
      (uri block = Some ("file://" +:+ p) ∨
       (uri block = Some p ∧ ∀ rest, p ≠ "file://" +:+ rest))) →
     p ≠ "" → existsSync p w = false →
     result = (None, log_error failed (log_error (missing p) w)) ∧
     (media_type block = image → index = 0 →
      shown_as_text (log_error failed (log_error (missing p) w)))) ∧
  (result.1 = None →
   files result.2 = files w ∧
   ∃ lines, console_error result.2 = console_error w ++ lines ++ [failed]) ∧
  (∀ e, result.1 = Some e →
     ∃ p, candidate_path block = Some p ∧ p ≠ "" ∧ existsSync p w = true ∧
          image_filePath e = p ∧ result.2 = w).
Proof.
  intros Hd Hne Hw. cbv zeta. split_and!.
  - intros Hf%truthy_absent_or_empty Hu%truthy_absent_or_empty.
    assert (truthy (candidate_path block) = false) as Hc.
    { unfold candidate_path. by rewrite Hf, Hu. }
    split.
    + by apply (resolve_image_write_fails env textParts block index w d).
    + intros Himage -> . apply display_single_dropped; [done|by eexists|].
      by apply (resolve_image_write_fails env [] block 0 w d).
  - intros p Hp Hpne Hex.
    assert (candidate_path block = Some p) as Hc.
    { destruct Hp as [Hp|[Hf%truthy_absent_or_empty [Hu|[Hu Hplain]]]].
      - by apply candidate_path_filePath.
      - by apply candidate_path_uri_prefixed.
      - apply candidate_path_uri_plain; [done..|].
        destruct (JsString.startsWith "file://" p) eqn:Hs; [|done].
        apply JsStringFacts.startsWith_rest in Hs as [rest ->].
        by destruct (Hplain rest). }
    split.
    + by apply (resolve_image_write_fails env textParts block index w d).
    + intros Himage ->. apply display_single_dropped; [done|by eexists|].
      by apply (resolve_image_write_fails env [] block 0 w d).
  - unfold resolve_image. unfold temp_path in Hw.
    rewrite Hd, (truthy_Some d Hne), Hw.
    destruct (if truthy (candidate_path block) then _ else false); [done|].
    intros _. destruct (truthy (candidate_path block)); simpl.
    + split; [done|]. eexists [_]. by rewrite <-app_assoc.
    + split; [done|]. by exists [].
  - intros e. unfold resolve_image. unfold temp_path in Hw.
    rewrite Hd, (truthy_Some d Hne), Hw.
    destruct (candidate_path block) as [p|]; [|done].
    destruct (truthy (Some p)) eqn:Ht; [|done]. simpl default.
    destruct (existsSync p w) eqn:Hex; [|done].
    simpl. intros [= <-]. exists p. split_and!; try done.
    intros ->. done.
Qed.

End DisplayMore.

(** ** Temporary file names, continued *)

Section TempNamesMore.

Lemma count_app (c : ascii) (s t : string) :
  count_code_unit c (s +:+ t) = count_code_unit c s + count_code_unit c t.
Proof. induction s as [|a s IH]; simpl; [done|]. rewrite IH. lia. Qed.

Lemma count_rev_app (c : ascii) (s t : string) :
  count_code_unit c (String.rev_app s t) =
  count_code_unit c s + count_code_unit c t.
Proof.
  revert t. induction s as [|a s IH]; intros t; simpl; [done|].
  rewrite IH. simpl. lia.
Qed.

Lemma count_digits (c : ascii) (s : string) :
  is_digit c = false → JsString.forallb is_digit s = true →
  count_code_unit c s = 0.
Proof.
  intros Hc. induction s as [|a s IH]; simpl; [done|].
  intros [Ha Hs]%andb_prop. rewrite (IH Hs).
  case_decide; [congruence | done].
Qed.

(** No piece of [s.split(sep)] contains the separator. *)
Lemma split_go_no_sep (sep : ascii) (cur s x : string) :
  count_code_unit sep cur = 0 →
  x ∈ JsString.split_go sep cur s → count_code_unit sep x = 0.
Proof.
  revert cur. induction s as [|a s IH]; intros cur Hcur; simpl.
  - intros ->%list_elem_of_singleton. unfold String.rev.
    rewrite count_rev_app. simpl. lia.
  - case_decide as Ha.
    + intros [->|Hx]%elem_of_cons.
      * unfold String.rev. rewrite count_rev_app. simpl. lia.
      * by apply (IH EmptyString).
    + apply IH. simpl. rewrite decide_False by done. lia.
Qed.

Lemma temp_extension_no_slash (mime : string) :
  count_code_unit "/" (temp_extension mime) = 0 ∧ temp_extension mime ≠ "".
Proof.
  unfold temp_extension, or_else.
  destruct (JsString.split "/" mime !! 1) as [x|] eqn:Hx; [|done].
  destruct (truthy (Some x)) eqn:Ht; [|done]. simpl. split.
  - apply (split_go_no_sep "/" EmptyString mime x); [done|].
    by eapply list_elem_of_lookup_2.
  - by destruct x.
Qed.

(** X22: the name of a temporary file never contains a slash, whatever
    the mime type of the block says: the extension is the piece of the
    mime type between its first and its second slash, or [png] when that
    piece is missing or empty, and it is never empty. *)
Theorem temp_filename_no_slash (now : N) (index : nat) (mime : string) :
  count_code_unit "/" (temp_filename now index (temp_extension mime)) = 0 ∧
  temp_extension mime ≠ "" ∧
  (∀ subtype rest,
     count_code_unit "/" subtype = 0 → subtype ≠ "" →
     temp_extension ("image/" +:+ subtype) = subtype ∧
     temp_extension ("image/" +:+ subtype +:+ "/" +:+ rest) = subtype) ∧
  temp_extension "image/" = "png" ∧ temp_extension "image" = "png".
Proof.
  destruct (temp_extension_no_slash mime) as [Hslash Hne].
  split_and!; try done.
  - unfold temp_filename. rewrite !count_app, Hslash.
    rewrite (count_digits "/" (pretty now)) by (done || apply pretty_N_digits).
    rewrite (count_digits "/" (pretty index))
      by (done || apply pretty_nat_digits).
    done.
  - intros subtype rest Hs Hne'.
    assert (∀ tail cur,
      count_code_unit "/" subtype = 0 →
      (tail = EmptyString ∨ ∃ t, tail = String "/" t) →
      head (JsString.split_go "/" cur (subtype +:+ tail)) =
        Some (String.rev_app cur subtype)) as Hhead.
    { clear. induction subtype as [|a s IH]; intros tail cur Hc Htail.
      - destruct Htail as [->|[t ->]]; done.
      - simpl in Hc. case_decide as Ha; [lia|].
        change (String a s +:+ tail) with (String a (s +:+ tail)).
        simpl JsString.split_go. rewrite decide_False by done.
        rewrite (IH tail (String a cur)) by (lia || done). done. }
    unfold temp_extension, JsString.split.
    change ("image/" +:+ subtype) with ("image" +:+ "/" +:+ subtype).
    change ("image/" +:+ subtype +:+ "/" +:+ rest)
      with ("image" +:+ "/" +:+ subtype +:+ "/" +:+ rest).
    simpl JsString.split_go.
    assert (∀ l : list string, (String.rev "egami" :: l) !! 1 = head l) as Hl
      by (by intros []).
    rewrite !Hl.
    pose proof (Hhead EmptyString EmptyString Hs (or_introl eq_refl)) as H1.
    pose proof (Hhead ("/" +:+ rest) EmptyString Hs
                  (or_intror (ex_intro _ rest eq_refl))) as H2.
    rewrite JsStringFacts.app_nil_r in H1. simpl String.rev_app in H1, H2.
    rewrite !JsStringFacts.app_nil_l, H1, H2. unfold or_else.
    rewrite (truthy_Some subtype Hne'). done.
Qed.

End TempNamesMore.

(** ** Image helpers of the CLI *)

Section ImageFilesMore.
Context `{NodePath}.

Lemma record_lookup_MIME_TYPE_MAP (ext : string) :
  ((∃ mime, record_lookup MIME_TYPE_MAP ext = Some mime ∧
            JsString.startsWith "image/" mime = true ∧ mime ≠ "") ∧
   ext ∈ IMAGE_EXTENSIONS) ∨
  (record_lookup MIME_TYPE_MAP ext = None ∧ ext ∉ IMAGE_EXTENSIONS).
Proof.
  unfold IMAGE_EXTENSIONS, MIME_TYPE_MAP, record_lookup.
  repeat case_decide; subst;
    try (left; split; [by eexists | repeat constructor]).
  right. split; [done|].
  rewrite !elem_of_cons, elem_of_nil. intros Hin. destruct_or!; done.
Qed.

(** X23: the two tables agree: a path is an image file exactly when
    [MIME_TYPE_MAP] has an entry for its lower-cased extension; every
    path gets a mime type that starts with [image/], the one of its
    entry for an image file and ["image/png"] for any other path. *)
Theorem image_tables_agree (filePath : string) :
  let ext := toLowerCase (path_extname filePath) in
  (isImageFile filePath = true ↔ is_Some (record_lookup MIME_TYPE_MAP ext)) ∧
  (∀ mime, record_lookup MIME_TYPE_MAP ext = Some mime →
           getImageMimeType filePath = mime) ∧
  (isImageFile filePath = false → getImageMimeType filePath = "image/png") ∧
  JsString.startsWith "image/" (getImageMimeType filePath) = true.
Proof.
  cbv zeta. unfold isImageFile, getImageMimeType.
  set (ext := toLowerCase (path_extname filePath)).
  rewrite bool_decide_eq_true, bool_decide_eq_false.
  destruct (record_lookup_MIME_TYPE_MAP ext)
    as [((mime & -> & Hstart & Hne) & Hin)|(-> & Hnot)].
  - unfold or_else. rewrite (truthy_Some mime Hne). simpl.
    split_and!; [by split; eauto | by intros ? [= <-] | done | done].
  - split_and!; [split; [done | by intros [? ?]] | done | done | done].
Qed.

Lemma omap_nil_iff {A B} (f : A → option B) (l : list A) :
  omap f l = [] ↔ ∀ x, x ∈ l → f x = None.
Proof.
  induction l as [|a l IH]; csimpl.
  - split; [by intros _ x Hx%elem_of_nil | done].
  - destruct (f a) eqn:Ha; csimpl.
    + split; [done|]. intros Hall.
      assert (f a = None) by (apply Hall; left). congruence.
    + rewrite IH. split.
      * intros Hall x [->|Hx]%elem_of_cons; auto.
      * intros Hall x Hx. apply Hall. by right.
Qed.

(** X24: [readImagesAsImageResult] gives [null] exactly when none of the
    paths is there (in particular for no paths at all); otherwise it
    gives the paths that are there, in their order and as often as they
    are listed, each with the mime type of its extension and its base
    name as [alt], and the result is an [ImageResult] for
    [isImageResult]. *)
Theorem readImagesAsImageResult_spec (imagePaths : list string) (w : World) :
  (readImagesAsImageResult imagePaths w = None ↔
   ∀ p, p ∈ imagePaths → existsSync p w = false) ∧
  (∀ images,
     readImagesAsImageResult imagePaths w = Some images →
     images ≠ [] ∧
     image_filePath <$> images = List.filter (λ p, existsSync p w) imagePaths ∧
     (∀ e, e ∈ images →
        image_mimeType e = getImageMimeType (image_filePath e) ∧
        image_alt e = Some (path_basename (image_filePath e))) ∧
     isImageResult (DisplayImageResult images) = true).
Proof.
  unfold readImagesAsImageResult.
  set (read := λ imagePath : string, if existsSync imagePath w then _ else None).
  assert (∀ l, image_filePath <$> omap read l =
               List.filter (λ p, existsSync p w) l) as Hfilter.
  { induction l as [|p l IH]; [done|]. csimpl. unfold read at 1.
    destruct (existsSync p w); csimpl; by rewrite ?IH. }
  assert (∀ (l : list string) e, e ∈ omap read l →
            image_mimeType e = getImageMimeType (image_filePath e) ∧
            image_alt e = Some (path_basename (image_filePath e))) as Hfields.
  { intros l e (p & _ & Hp)%list_elem_of_omap. unfold read in Hp.
    destruct (existsSync p w); by simplify_eq. }
  assert (∀ l : list string,
            omap read l = [] ↔ ∀ p, p ∈ l → existsSync p w = false)
    as Hnone.
  { intros l. rewrite omap_nil_iff. unfold read.
    split; intros Hall p Hp; specialize (Hall p Hp);
      by destruct (existsSync p w). }
  destruct imagePaths as [|p0 rest].
  { split; [split; [by intros _ p Hp%elem_of_nil | done] | done]. }
  specialize (Hnone (p0 :: rest)). specialize (Hfilter (p0 :: rest)).
  specialize (Hfields (p0 :: rest)).
  destruct (omap read (p0 :: rest)) as [|i l] eqn:Hread.
  - split; [|done]. split; [intros _; by apply Hnone | done].
  - split.
    + split; [done|]. intros Hall. by apply Hnone in Hall.
    + intros images [= <-]. split_and!; [done|done|done|].
      unfold isImageResult. apply andb_true_intro. split.
      * apply bool_decide_eq_true_2. simpl. lia.
      * clear. by induction (i :: l).
Qed.

End ImageFilesMore.

(** ** The [@path] references of a message *)

Section ImagePathsMore.
Context `{NodePath}.

Lemma exec_all_length (skip : nat) (text : string) :
  length (exec_all skip text) ≤ count_code_unit "@" text.
Proof.
  revert skip. induction text as [|c r IH]; intros skip; simpl; [done|].
  destruct skip as [|k].
  - case_decide as Hc.
    + destruct (match_path r) as [n|]; simpl.
      * specialize (IH n). lia.
      * specialize (IH 0). lia.
    + specialize (IH 0). lia.
  - specialize (IH k). lia.
Qed.

Lemma take_drop_string (n : nat) (s : string) :
  JsString.take n s +:+ JsString.drop n s = s.
Proof.
  revert s. induction n as [|n IH]; intros [|c s]; simpl; try done.
  change (String c (JsString.take n s +:+ JsString.drop n s) = String c s).
  by rewrite IH.
Qed.

Lemma exec_all_contains (skip : nat) (text capture : string) :
  capture ∈ exec_all skip text → JsString.contains text ("@" +:+ capture).
Proof.
  revert skip. induction text as [|c r IH]; intros skip; simpl.
  { by intros ?%elem_of_nil. }
  assert (∀ k, capture ∈ exec_all k r →
               JsString.contains (String c r) ("@" +:+ capture)) as Hrest.
  { intros k Hin. apply (JsStringFacts.contains_app_l r _ (String c "")).
    by apply (IH k). }
  destruct skip as [|k]; [|apply Hrest].
  case_decide as Hc; [|apply Hrest].
  destruct (match_path r) as [n|]; [|apply Hrest].
  intros [->|Hin]%elem_of_cons; [|by apply (Hrest n)].
  subst c. exists "", (JsString.drop n r). simpl.
  by rewrite JsStringFacts.app_assoc, take_drop_string.
Qed.

Lemma starts_with_word_take (word s : string) :
  starts_with_word word s = true →
  starts_with_word word (JsString.take (String.length word) s) = true ∧
  String.length (JsString.take (String.length word) s) = String.length word.
Proof.
  revert s. induction word as [|p word IH]; intros [|c s]; simpl; try done.
  intros [Hc Hw]%andb_prop. destruct (IH s Hw) as [-> ->]. by rewrite Hc.
Qed.

Lemma match_dot_extension_Some (s : string) (k : nat) :
  match_dot_extension s = Some k →
  ∃ word ext,
    word ∈ image_alternatives ∧ JsString.take k s = "." +:+ ext ∧
    starts_with_word word ext = true ∧ String.length ext = String.length word.
Proof.
  destruct s as [|c r]; [done|]. unfold match_dot_extension.
  case_decide as Hc; [subst c|done].
  destruct (List.find (λ word, starts_with_word word r) image_alternatives)
    as [word|] eqn:Hfind; [|done].
  intros [= <-]. apply List.find_some in Hfind as [Hin Hw].
  apply list_elem_of_In in Hin.
  destruct (starts_with_word_take word r Hw) as [Hw' Hlen].
  exists word, (JsString.take (String.length word) r). by simpl.
Qed.

Lemma match_path_Some (s : string) (n : nat) :
  match_path s = Some n →
  ∃ stem word ext,
    JsString.take n s = stem +:+ "." +:+ ext ∧ stem ≠ "" ∧
    JsString.forallb is_path_char stem = true ∧
    word ∈ image_alternatives ∧
    starts_with_word word ext = true ∧ String.length ext = String.length word.
Proof.
  revert n. induction s as [|c r IH]; intros n; simpl; [done|].
  destruct (is_path_char c) eqn:Hc; [|done].
  destruct (match_path r) as [m|] eqn:Hm.
  - intros [= <-].
    destruct (IH m eq_refl) as (stem & word & ext & Htake & _ & Hstem & Hrest).
    exists (String c stem), word, ext. simpl. rewrite Htake, Hc, Hstem.
    destruct Hrest as (? & ? & ?). by split_and!.
  - destruct (match_dot_extension r) as [k|] eqn:Hk; [|done].
    intros [= <-].
    destruct (match_dot_extension_Some r k Hk) as (word & ext & Hw & Htake & Hrest).
    exists (String c ""), word, ext. simpl. rewrite Htake, Hc.
    destruct Hrest as (? & ?). by split_and!.
Qed.

(** X25: what the regular expression captures: every capture stands in
    the text right after an [@], and is a non-empty run of characters
    that are neither white space nor one of [,;!?()[]{}], then a dot,
    then one of the seven extensions in any mix of upper and lower
    case. *)
Theorem exec_all_captures (text capture : string) :
  capture ∈ exec_all 0 text →
  JsString.contains text ("@" +:+ capture) ∧
  ∃ stem word ext,
    capture = stem +:+ "." +:+ ext ∧ stem ≠ "" ∧
    JsString.forallb is_path_char stem = true ∧
    word ∈ image_alternatives ∧
    starts_with_word word ext = true ∧ String.length ext = String.length word.
Proof.
  intros Hin. split; [by apply (exec_all_contains 0)|].
  revert Hin. generalize 0.
  induction text as [|c r IH]; intros skip; simpl.
  { by intros ?%elem_of_nil. }
  destruct skip as [|k]; [|apply IH].
  case_decide as Hc; [|apply IH].
  destruct (match_path r) as [n|] eqn:Hn; [|apply IH].
  intros [->|Hin]%elem_of_cons; [|by apply (IH n)].
  by apply match_path_Some.
Qed.

(** X26: [extractImagePaths] gives nothing for a text without [@] and
    at most one path for each [@]; every path it gives is an image file
    for [isImageFile], and is a capture of the regular expression, as it
    is when absolute and resolved against the workspace root
    otherwise. *)
Theorem extractImagePaths_paths (text workspaceRoot : string) :
  length (extractImagePaths text workspaceRoot) ≤ count_code_unit "@" text ∧
  (count_code_unit "@" text = 0 → extractImagePaths text workspaceRoot = []) ∧
  (∀ resolved, resolved ∈ extractImagePaths text workspaceRoot →
     isImageFile resolved = true ∧
     ∃ capture,
       capture ∈ exec_all 0 text ∧
       resolved = if path_isAbsolute capture then capture
                  else path_resolve workspaceRoot capture).
Proof.
  assert (length (extractImagePaths text workspaceRoot)
          ≤ count_code_unit "@" text) as Hlen.
  { unfold extractImagePaths. etrans; [|apply (exec_all_length 0)].
    generalize (exec_all 0 text). intros l.
    induction l as [|x l IH]; csimpl; [done|]. case_match; csimpl; lia. }
  split_and!; [done| |].
  - intros H0. rewrite H0 in Hlen.
    destruct (extractImagePaths text workspaceRoot); [done | simpl in Hlen; lia].
  - intros resolved (capture & Hin & Hsel)%list_elem_of_omap.
    simpl in Hsel. case_match eqn:Himg; [|done].
    injection Hsel as <-. split; [done|]. by exists capture.
Qed.

End ImagePathsMore.

(** ** Consumers of the display payload *)

Section ConsumersMore.
Context `{Host}.

Lemma imagePaths_from_nonempty (images : list ImageEntry) (acc : list string) :
  (∀ e, e ∈ images → image_filePath e ≠ "") →
  imagePaths_from images acc = (acc ++ (image_filePath <$> images), None).
Proof.
  revert acc. induction images as [|e rest IH]; intros acc Hall; simpl.
  - by rewrite app_nil_r.
  - assert (image_filePath e ≠ "") as He by (apply Hall; left).
    destruct (image_filePath e) as [|c s] eqn:Hp; [done|]. simpl.
    rewrite IH by (intros e' He'; apply Hall; by right).
    by rewrite <-app_assoc.
Qed.

Lemma resolve_image_path_nonempty env textParts block index w e :
  (∀ dir file, path_join dir file ≠ "") →
  (resolve_image env textParts block index w).1 = Some e →
  image_filePath e ≠ "".
Proof.
  intros Hjoin. unfold resolve_image.
  destruct (truthy (candidate_path block)) eqn:Ht.
  - destruct (candidate_path block) as [[|c s]|]; try done.
    repeat case_match; simpl; try done; intros [= <-]; simpl; try done;
      apply Hjoin.
  - repeat case_match; simpl; try done; intros [= <-]; simpl; apply Hjoin.
Qed.

(** X27: the type guard and the normaliser agree: [isImageResult] holds
    of a display payload of [getStringifiedResultForDisplay] exactly when
    the payload is an [ImageResult], whose list of images is then never
    empty; and, [path.join] never giving the empty string, the image
    paths [StandaloneImageDisplay] takes from such a payload are the
    paths of its images, in order, without the "Image missing file
    path" error. *)
Theorem display_payload_passes_guard env rawResponse w :
  let display := (getStringifiedResultForDisplay env rawResponse w).1 in
  (isImageResult display = true ↔ ∃ images, display = DisplayImageResult images) ∧
  ((∀ dir file, path_join dir file ≠ "") →
   ∀ images, display = DisplayImageResult images →
     imagePaths images = (image_filePath <$> images, None)).
Proof.
  cbv zeta. unfold getStringifiedResultForDisplay.
  destruct (response_content rawResponse) as [|v|mcpContent];
    try (simpl; split; [split; [done | by intros [? ?]] | done]).
  destruct (omap as_image_block mcpContent) as [|b bs] eqn:Himgs;
    [simpl; split; [split; [done | by intros [? ?]] | done]|].
  pose proof (map_images_elem env (omap as_text mcpContent) (b :: bs) 0 w)
    as Helem.
  destruct (map_images env (omap as_text mcpContent) (b :: bs) 0 w) as [es w1].
  destruct (omap id es) as [|i l] eqn:Hes;
    [simpl; split; [split; [done | by intros [? ?]] | done]|].
  simpl fst. split.
  - split; [by eexists|]. intros _. unfold isImageResult.
    apply andb_true_intro. split; [apply bool_decide_eq_true_2; simpl; lia|].
    clear. by induction (i :: l).
  - intros Hjoin images [= <-]. unfold imagePaths.
    rewrite imagePaths_from_nonempty; [done|].
    intros e He.
    assert (Some e ∈ es) as Hin.
    { rewrite <-Hes in He.
      apply list_elem_of_omap in He as (r & Hr & Hid). simpl in Hid. by subst r. }
    destruct (Helem e Hin) as (k & m & wi & _ & Hres & _).
    by eapply resolve_image_path_nonempty.
Qed.

(** X28: [StandaloneImageDisplay] shows all or nothing: one image
    without a file path sets the error and empties the list, wherever
    in the list it stands. *)
Theorem imagePaths_all_or_nothing (before after : list ImageEntry)
    (broken : ImageEntry) :
  image_filePath broken = "" →
  imagePaths (before ++ broken :: after) = ([], Some "Image missing file path").
Proof.
  intros Hb. unfold imagePaths.
  assert (∀ acc, imagePaths_from (before ++ broken :: after) acc =
                 ([], Some "Image missing file path")) as Hany; [|apply Hany].
  induction before as [|e rest IH]; intros acc; simpl.
  - rewrite Hb. reflexivity.
  - destruct (String.length (image_filePath e) =? 0)%nat; [done | apply IH].
Qed.

End ConsumersMore.

(** * Worked inputs for the further properties *)

Module WorkedMore.
Import Sample SampleFiles.

(** ** Sanitizer *)

Lemma generateValidName_collision_witness :
  String.length long_front = 28 ∧ String.length long_back = 32 ∧
  3 < String.length "e_alpha" ∧ 3 < String.length "e_beta_gamma" ∧
  long_name_1 ≠ long_name_2 ∧
  generateValidName long_name_1 = generateValidName long_name_2.
Proof.
  split_and!; [reflexivity|reflexivity|simpl; lia|simpl; lia|discriminate|].
  apply (generateValidName_collision long_front "e_alpha" "e_beta_gamma"
           long_back); [reflexivity|reflexivity|simpl; lia|simpl; lia].
Defined.

(** ** Tool definition *)

Lemma new_DiscoveredMCPTool_default_name_witness :
  JsString.forallb is_valid_name_char "get_forecast" = true ∧
  String.length "get_forecast" ≤ 63 ∧
  name (new_DiscoveredMCPTool (tool []) "weather-server" "get_forecast"
          "Forecast" JNull None None None None None None) = "get_forecast".
Proof.
  assert (JsString.forallb is_valid_name_char "get_forecast" = true) as Hv
    by reflexivity.
  assert (String.length "get_forecast" ≤ 63) as Hl by (simpl; lia).
  split_and!; [exact Hv | exact Hl |].
  exact (proj2 (proj2 (proj2
           (new_DiscoveredMCPTool_default_name (tool []) "weather-server"
              "get_forecast" "Forecast" JNull None None None None None)))
           Hv Hl).
Defined.

Lemma asFullyQualifiedTool_name_not_sanitized_witness :
  ∃ t',
    [forecast_tool] !! 0 = Some forecast_tool ∧
    asFullyQualifiedTool 0 [forecast_tool] = Some (1, [forecast_tool; t']) ∧
    [forecast_tool; t'] !! 1 = Some t' ∧
    String.length (name t') = 14 + 2 + 12 ∧
    JsString.forallb is_valid_name_char (name t') = false.
Proof.
  eexists. split; [reflexivity|]. split; [reflexivity|]. split; [reflexivity|].
  exact (asFullyQualifiedTool_name_not_sanitized [forecast_tool] 0 1 _
           forecast_tool _ eq_refl eq_refl eq_refl).
Defined.

Lemma asFullyQualifiedTool_idempotent_witness :
  ∃ t' fq2 h'',
    asFullyQualifiedTool 0 [forecast_tool] = Some (1, [forecast_tool; t']) ∧
    asFullyQualifiedTool 1 [forecast_tool; t'] = Some (fq2, h'') ∧
    fq2 ≠ 1 ∧ h'' !! fq2 = Some t' ∧ h'' !! 1 = Some t'.
Proof.
  eexists.
  destruct (asFullyQualifiedTool_idempotent [forecast_tool] 0 1 _ eq_refl)
    as (fq2 & h'' & Hq & Hne & H2 & H1).
  exists fq2, h''. split; [reflexivity|]. split_and!.
  - exact Hq.
  - exact Hne.
  - exact H2.
  - exact H1.
Defined.

Lemma createInvocation_of_qualified_witness :
  [forecast_tool] !! 0 = Some forecast_tool ∧
  ∃ fq h' t',
    asFullyQualifiedTool 0 [forecast_tool] = Some (fq, h') ∧
    h' !! fq = Some t' ∧
    createInvocation t' [] None = createInvocation forecast_tool [] None ∧
    inv_toolName (createInvocation forecast_tool [] None) = name t'.
Proof.
  split; [reflexivity|].
  exact (createInvocation_of_qualified [forecast_tool] 0 (tool [])
           "weather-server" "get forecast" "Forecast for a city"
           (JObject [("type", JString "object")]) (Some true) None None None
           None None [] None eq_refl).
Defined.

(** ** Gate *)

Lemma proceed_always_tool_sticks_witness :
  getConfirmationDetails weather (world ∅) = ConfirmationRequired weather_details ∧
  getConfirmationDetails trusted_without_config
    (onConfirm weather_details ProceedAlwaysTool (world ∅))
    = NoConfirmationNeeded.
Proof.
  assert (getConfirmationDetails weather (world ∅)
          = ConfirmationRequired weather_details) as Hd by reflexivity.
  split; [exact Hd|].
  apply (proceed_always_tool_sticks (H := host) weather (world ∅)
           weather_details (world ∅) Hd);
    [apply rtc_refl | reflexivity | reflexivity].
Defined.

Lemma proceed_always_tool_leaves_siblings_witness :
  getConfirmationDetails weather (world ∅) = ConfirmationRequired weather_details ∧
  inv_serverName alerts_trusted = inv_serverName weather ∧
  inv_serverToolName alerts_trusted ≠ inv_serverToolName weather ∧
  getConfirmationDetails alerts_trusted (world ∅)
    = ConfirmationRequired (details_of alerts_trusted (world ∅)) ∧
  ∃ asked',
    getConfirmationDetails alerts_trusted
      (onConfirm weather_details ProceedAlwaysTool (world ∅))
      = ConfirmationRequired asked' ∧
    details_toolName asked' = "get_alerts".
Proof.
  assert (getConfirmationDetails weather (world ∅)
          = ConfirmationRequired weather_details) as Hd by reflexivity.
  assert (inv_serverToolName alerts_trusted ≠ inv_serverToolName weather)
    as Hne by discriminate.
  assert (getConfirmationDetails alerts_trusted (world ∅)
          = ConfirmationRequired (details_of alerts_trusted (world ∅)))
    as Hasked by reflexivity.
  split_and!; [exact Hd | reflexivity | exact Hne | exact Hasked |].
  exact (proceed_always_tool_leaves_siblings weather (world ∅)
           weather_details (world ∅) alerts_trusted _ Hd eq_refl Hne Hasked).
Defined.

Lemma tool_key_allows_server_of_that_name_witness :
  getConfirmationDetails weather (world ∅) = ConfirmationRequired weather_details ∧
  inv_serverName dotted = "weather-server.get_forecast" ∧
  inv_serverToolName dotted = "erase_all" ∧
  getConfirmationDetails dotted
    (onConfirm weather_details ProceedAlwaysTool (world ∅))
    = NoConfirmationNeeded.
Proof.
  assert (getConfirmationDetails weather (world ∅)
          = ConfirmationRequired weather_details) as Hd by reflexivity.
  split_and!; [exact Hd | reflexivity | reflexivity |].
  exact (tool_key_allows_server_of_that_name weather (world ∅)
           weather_details (world ∅) dotted Hd eq_refl).
Defined.

Lemma allowlist_monotone_idempotent_witness :
  getConfirmationDetails weather (world ∅) = ConfirmationRequired weather_details ∧
  allowlist (onConfirm weather_details ProceedAlwaysServer
               (onConfirm weather_details ProceedAlwaysServer (world ∅))) =
  allowlist (onConfirm weather_details ProceedAlwaysServer (world ∅)).
Proof.
  assert (getConfirmationDetails weather (world ∅)
          = ConfirmationRequired weather_details) as Hd by reflexivity.
  split; [exact Hd|].
  exact (proj1 (proj2 (allowlist_monotone_idempotent (H := host) weather
                         (world ∅) weather_details Hd))
           ProceedAlwaysServer (world ∅)).
Defined.

Lemma trust_needs_trusted_folder_witness :
  getConfirmationDetails trusted (world ∅) = NoConfirmationNeeded ∧
  ∃ asked,
    getConfirmationDetails trusted_without_config (world ∅)
      = ConfirmationRequired asked ∧
    details_serverName asked = "weather-server" ∧
    details_toolName asked = "get_forecast" ∧
    details_toolDisplayName asked = "Forecast".
Proof.
  split.
  - exact (proj1 (trust_needs_trusted_folder trusted (world ∅))
             eq_refl eq_refl).
  - apply (proj2 (trust_needs_trusted_folder trusted_without_config (world ∅)));
      [reflexivity | | ]; simpl; apply not_elem_of_empty.
Defined.

(** ** Executor *)

Lemma execute_rejections_witness :
  execute (H := host) aborting working false (world ∅) =
    (Rejected AbortError, after_one_call working (world ∅)) ∧
  execute (H := host) (surroundings 0) unreachable false (world ∅) =
    (Rejected {| error_name := "Error"; error_message := "connection closed" |},
     after_one_call unreachable (world ∅)).
Proof.
  split.
  - exact (proj1 (execute_rejections (H := host) aborting working (world ∅))
             eq_refl).
  - exact (proj2 (execute_rejections (H := host) (surroundings 0) unreachable
                    (world ∅)) eq_refl _ eq_refl).
Defined.

Lemma execute_fulfilled_witness :
  isMCPToolError sunny_response = false ∧
  ∃ result w',
    execute (H := host) (surroundings 0) working false (world ∅)
      = (Fulfilled result, w') ∧
    llmContent result = LlmParts [textPart "sunny"] ∧
    returnDisplay result = DisplayString "sunny" ∧
    toolResult_error result = None.
Proof.
  split; [reflexivity|].
  destruct (execute_fulfilled (H := host) (surroundings 0) working (world ∅)
              sunny_response eq_refl eq_refl)
    as (result & w' & Hexec & Herr & Hok).
  exists result, w'. destruct (Hok eq_refl) as [Hllm Hdisplay].
  split_and!.
  - exact Hexec.
  - exact Hllm.
  - exact (f_equal fst Hdisplay).
  - destruct (toolResult_error result) as [err|] eqn:He; [|reflexivity].
    discriminate (proj1 Herr (ex_intro _ err eq_refl)).
Defined.

Lemma isMCPToolError_first_element_only_witness :
  "True" ≠ "true" ∧
  isMCPToolError
    (mcp_response None ContentAbsent
       (Some {| isError := Some (IsErrorString "True") |}) ++ failing_response)
    = false.
Proof.
  assert ("True" ≠ "true") as Hne by discriminate.
  split; [exact Hne|].
  exact (proj1 (proj2 (proj2
           (isMCPToolError_first_element_only emptyPart failing_response)))
           None ContentAbsent "True" Hne).
Defined.

(** ** Model parts *)

Lemma transformImageAudioBlock_payload_witness :
  filePath both_paths = Some "/a.png" ∧ "/a.png" ≠ "" ∧
  (∀ rest, "/a.png" ≠ "file://" +:+ rest) ∧
  transformImageAudioBlock both_paths "draw" =
    [ {| part_text :=
           Some "[Tool 'draw' provided the following image data with mime-type: image/png]";
         part_fileData := None; part_inlineData := None;
         part_functionResponse := None |};
      {| part_text := None;
         part_fileData :=
           Some {| fileUri := "file:///a.png"; fileData_mimeType := "image/png" |};
         part_inlineData := None; part_functionResponse := None |} ].
Proof.
  assert ("/a.png" ≠ "") as Hne by discriminate.
  assert (∀ rest, "/a.png" ≠ "file://" +:+ rest) as Hplain by discriminate.
  split; [reflexivity|]. split; [exact Hne|]. split; [exact Hplain|].
  destruct (transformImageAudioBlock_payload both_paths "draw")
    as (payload & Hparts & Hfile & _).
  destruct (Hfile "/a.png" eq_refl Hne) as (u & Hpayload & _ & _ & Hu).
  rewrite Hparts, Hpayload, (Hu Hplain). reflexivity.
Defined.

(** The four payloads: a [filePath] that has the prefix, a [uri] that
    is preferred to the data of an audio block, data alone, and nothing. *)
Example transformImageAudioBlock_examples :
  transformImageAudioBlock (image_block (Some "file:///a.png") None None) "draw" =
    [ {| part_text :=
           Some "[Tool 'draw' provided the following image data with mime-type: image/png]";
         part_fileData := None; part_inlineData := None;
         part_functionResponse := None |};
      {| part_text := None;
         part_fileData :=
           Some {| fileUri := "file:///a.png"; fileData_mimeType := "image/png" |};
         part_inlineData := None; part_functionResponse := None |} ] ∧
  transformImageAudioBlock
    {| media_type := audio; mimeType := "audio/wav"; filePath := None;
       uri := Some "https://host/clip.wav"; data := Some "UklG" |} "rec" =
    [ {| part_text :=
           Some "[Tool 'rec' provided the following audio data with mime-type: audio/wav]";
         part_fileData := None; part_inlineData := None;
         part_functionResponse := None |};
      {| part_text := None;
         part_fileData :=
           Some {| fileUri := "https://host/clip.wav";
                   fileData_mimeType := "audio/wav" |};
         part_inlineData := None; part_functionResponse := None |} ] ∧
  transformImageAudioBlock (inline_only "aGk=") "draw" =
    [ {| part_text :=
           Some "[Tool 'draw' provided the following image data with mime-type: image/png]";
         part_fileData := None; part_inlineData := None;
         part_functionResponse := None |};
      {| part_text := None; part_fileData := None;
         part_inlineData :=
           Some {| blob_mimeType := "image/png"; blob_data := "aGk=" |};
         part_functionResponse := None |} ] ∧
  transformImageAudioBlock (image_block (Some "") None None) "draw" =
    [ {| part_text :=
           Some "[Tool 'draw' provided the following image data with mime-type: image/png]";
         part_fileData := None; part_inlineData := None;
         part_functionResponse := None |};
      {| part_text := Some "[No image payload provided]";
         part_fileData := None; part_inlineData := None;
         part_functionResponse := None |} ].
Proof. vm_compute. done. Qed.

Lemma transformMcpContentToParts_parts_witness :
  response_content charts_response =
    ContentArray [McpTextBlock "Two charts"; McpMedia chart_a; McpMedia chart_b] ∧
  length (transformMcpContentToParts charts_response) ≤ 2 * 3.
Proof.
  split; [reflexivity|].
  exact (proj2 (transformMcpContentToParts_parts charts_response) _ eq_refl).
Defined.

(** ** Display payload *)

Lemma charts_display :
  getStringifiedResultForDisplay (H := host) (surroundings 0) charts_response
    charts_world =
  (DisplayImageResult
     [ {| image_filePath := "/tmp/a.png"; image_mimeType := "image/png";
          image_alt := Some "Two charts" |};
       {| image_filePath := "/tmp/b.png"; image_mimeType := "image/png";
          image_alt := Some "Two charts" |} ], charts_world).
Proof. vm_compute. reflexivity. Qed.

Lemma captioned_display :
  getStringifiedResultForDisplay (H := host) (surroundings 0)
    captioned_response charts_world =
  (DisplayImageResult
     [ {| image_filePath := "/tmp/a.png"; image_mimeType := "image/png";
          image_alt := Some ("Sales" +:+ String (ascii_of_nat 10) "by region") |};
       {| image_filePath := "/tmp/b.png"; image_mimeType := "image/png";
          image_alt := Some ("Sales" +:+ String (ascii_of_nat 10) "by region") |} ],
   charts_world).
Proof. vm_compute. reflexivity. Qed.

Lemma display_images_share_caption_witness :
  response_content captioned_response =
    ContentArray
      [McpTextBlock "Sales"; McpMedia chart_a; McpTextBlock "by region";
       McpMedia chart_b] ∧
  ∃ images,
    (getStringifiedResultForDisplay (H := host) (surroundings 0)
       captioned_response charts_world).1 = DisplayImageResult images ∧
    length images ≤ 2 ∧
    ∀ e, e ∈ images →
      image_alt e = Some ("Sales" +:+ String (ascii_of_nat 10) "by region").
Proof.
  split; [reflexivity|].
  eexists. split; [exact (f_equal fst captioned_display)|].
  destruct (display_images_share_caption (H := host) (surroundings 0)
              captioned_response charts_world _ _ eq_refl
              (f_equal fst captioned_display)) as [Hlen Hall].
  split; [exact Hlen|]. intros e He.
  exact (proj1 (proj2 (proj2 (proj2 (Hall e He)))) "Sales" "by region" eq_refl).
Defined.

Lemma display_effects_witness :
  (∀ mcpContent,
     response_content sunny_response = ContentArray mcpContent →
     omap as_image_block mcpContent = []) ∧
  (getStringifiedResultForDisplay (H := host) (surroundings 0) sunny_response
     charts_world).2 = charts_world.
Proof.
  assert (∀ mcpContent,
     response_content sunny_response = ContentArray mcpContent →
     omap as_image_block mcpContent = []) as Hnone.
  { intros mcpContent Hc. injection Hc as <-. reflexivity. }
  split; [exact Hnone|].
  exact (proj2 (proj2 (proj2 (proj2 (proj2
           (display_effects (H := host) (surroundings 0) sunny_response
              charts_world))))) Hnone).
Defined.

Lemma display_all_paths_exist_witness :
  omap as_image_block
    [McpTextBlock "Two charts"; McpMedia chart_a; McpMedia chart_b]
    = [chart_a; chart_b] ∧
  candidate_path chart_a = Some "/tmp/a.png" ∧
  candidate_path chart_b = Some "/tmp/b.png" ∧
  existsSync "/tmp/a.png" charts_world = true ∧
  existsSync "/tmp/b.png" charts_world = true ∧
  getStringifiedResultForDisplay (H := host) (surroundings 0) charts_response
    charts_world =
  (DisplayImageResult
     [ image_entry ["Two charts"] chart_a "/tmp/a.png";
       image_entry ["Two charts"] chart_b "/tmp/b.png" ], charts_world).
Proof.
  assert (existsSync "/tmp/a.png" charts_world = true) as Ha
    by (vm_compute; reflexivity).
  assert (existsSync "/tmp/b.png" charts_world = true) as Hb
    by (vm_compute; reflexivity).
  split_and!; [reflexivity|reflexivity|reflexivity|exact Ha|exact Hb|].
  apply (display_all_paths_exist (H := host) (surroundings 0) charts_response
           charts_world
           [McpTextBlock "Two charts"; McpMedia chart_a; McpMedia chart_b]
           eq_refl).
  - discriminate.
  - intros m Hm.
    change (m ∈ [chart_a; chart_b]) in Hm.
    apply elem_of_cons in Hm as [->|Hm].
    + exists "/tmp/a.png". split; [reflexivity|]. split; [discriminate|exact Ha].
    + apply list_elem_of_singleton in Hm as ->.
      exists "/tmp/b.png". split; [reflexivity|]. split; [discriminate|exact Hb].
Defined.

Lemma base64_image_materialized_witness :
  let result :=
    resolve_image (H := host) (surroundings 7) [] (inline_only "aGk=") 0
      (world ∅) in
  "aGk=" ≠ "" ∧
  image_filePath <$> result.1 = Some "/tmp/gemini-cli-image-mcp-7-0.png" ∧
  files result.2 !! "/tmp/gemini-cli-image-mcp-7-0.png" = Some "aGk=" ∧
  console_error result.2 = [].
Proof.
  intros result. assert ("aGk=" ≠ "") as Hne by discriminate.
  destruct (base64_image_materialized (H := host) (surroundings 7) []
              (inline_only "aGk=") 0 (world ∅) "aGk=" eq_refl eq_refl eq_refl
              Hne eq_refl) as (Hentry & Hfile & _ & Hlog).
  split_and!.
  - exact Hne.
  - exact (f_equal (fmap image_filePath) Hentry).
  - exact Hfile.
  - exact Hlog.
Defined.

Lemma base64_image_write_fails_witness :
  "aGk=" ≠ "" ∧ "/gone.png" ≠ "" ∧
  getStringifiedResultForDisplay (H := host) read_only
    (mcp_response None (ContentArray [McpMedia (inline_only "aGk=")]) None)
    (world ∅) =
  (DisplayString "[Image: image/png]",
   log_error "Failed to write image temp file from MCP data" (world ∅)) ∧
  getStringifiedResultForDisplay (H := host) read_only
    (mcp_response None
       (ContentArray
          [McpMedia (image_block (Some "/gone.png") None (Some "aGk="))]) None)
    (world ∅) =
  (DisplayString "[Image: image/png]",
   log_error "Failed to write image temp file from MCP data"
     (log_error
        "Image file path does not exist: /gone.png, falling back to base64"
        (world ∅))).
Proof.
  assert ("aGk=" ≠ "") as Hne by discriminate.
  assert ("/gone.png" ≠ "") as Hpne by discriminate.
  split; [exact Hne|]. split; [exact Hpne|]. split.
  - exact (proj2 (proj1 (base64_image_write_fails (H := host) read_only []
                    (inline_only "aGk=") 0 (world ∅) "aGk=" eq_refl Hne eq_refl)
                    (or_introl eq_refl) (or_introl eq_refl))
             eq_refl eq_refl None None).
  - exact (proj2 (proj1 (proj2
                    (base64_image_write_fails (H := host) read_only []
                       (image_block (Some "/gone.png") None (Some "aGk="))
                       0 (world ∅) "aGk=" eq_refl Hne eq_refl))
                    "/gone.png" (or_introl eq_refl) Hpne eq_refl)
             eq_refl eq_refl None None).
Defined.

Lemma temp_filename_no_slash_witness :
  count_code_unit "/" "svg+xml" = 0 ∧ "svg+xml" ≠ "" ∧
  temp_extension "image/svg+xml" = "svg+xml" ∧
  temp_extension "image/svg+xml/../../etc" = "svg+xml".
Proof.
  assert ("svg+xml" ≠ "") as Hne by discriminate.
  split; [reflexivity|]. split; [exact Hne|].
  exact (proj1 (proj2 (proj2 (temp_filename_no_slash 0 0 "image/png")))
           "svg+xml" "../../etc" eq_refl Hne).
Defined.

(** ** Image helpers *)

Lemma image_tables_agree_witness :
  isImageFile (H := node_path) "/home/me/Photo.JPEG" = true ∧
  record_lookup MIME_TYPE_MAP ".jpeg" = Some "image/jpeg" ∧
  getImageMimeType (H := node_path) "/home/me/Photo.JPEG" = "image/jpeg" ∧
  isImageFile (H := node_path) "/home/me/notes.txt" = false ∧
  getImageMimeType (H := node_path) "/home/me/notes.txt" = "image/png".
Proof.
  split; [reflexivity|]. split; [reflexivity|]. split.
  - exact (proj1 (proj2 (image_tables_agree (H := node_path)
                           "/home/me/Photo.JPEG")) "image/jpeg" eq_refl).
  - split; [reflexivity|].
    exact (proj1 (proj2 (proj2 (image_tables_agree (H := node_path)
                                  "/home/me/notes.txt"))) eq_refl).
Defined.

Lemma readImagesAsImageResult_spec_witness :
  readImagesAsImageResult (H := node_path)
    ["/tmp/a.png"; "/tmp/missing.png"; "/tmp/b.png"] charts_world =
    Some [ {| image_filePath := "/tmp/a.png"; image_mimeType := "image/png";
              image_alt := Some "a.png" |};
           {| image_filePath := "/tmp/b.png"; image_mimeType := "image/png";
              image_alt := Some "b.png" |} ] ∧
  isImageResult
    (DisplayImageResult
       [ {| image_filePath := "/tmp/a.png"; image_mimeType := "image/png";
            image_alt := Some "a.png" |};
         {| image_filePath := "/tmp/b.png"; image_mimeType := "image/png";
            image_alt := Some "b.png" |} ]) = true.
Proof.
  assert (readImagesAsImageResult (H := node_path)
            ["/tmp/a.png"; "/tmp/missing.png"; "/tmp/b.png"] charts_world =
          Some [ {| image_filePath := "/tmp/a.png"; image_mimeType := "image/png";
                    image_alt := Some "a.png" |};
                 {| image_filePath := "/tmp/b.png"; image_mimeType := "image/png";
                    image_alt := Some "b.png" |} ]) as Hread
    by (vm_compute; reflexivity).
  split; [exact Hread|].
  exact (proj2 (proj2 (proj2
           (proj2 (readImagesAsImageResult_spec (H := node_path) _ charts_world)
              _ Hread)))).
Defined.

Example exec_all_examples :
  exec_all 0 "look at @a.png and @dir/b.JPG, not @notes.txt (@q.svg)"
    = ["a.png"; "dir/b.JPG"; "q.svg"] ∧
  exec_all 0 "@notes.pngfoo @a.png.jpg me@x.bmp@y.webp @.png"
    = ["notes.png"; "a.png.jpg"; "x.bmp@y.webp"].
Proof. split; vm_compute; reflexivity. Qed.

Lemma exec_all_captures_witness :
  "dir/b.JPG" ∈ exec_all 0 "look at @a.png and @dir/b.JPG" ∧
  JsString.contains "look at @a.png and @dir/b.JPG" "@dir/b.JPG".
Proof.
  assert ("dir/b.JPG" ∈ exec_all 0 "look at @a.png and @dir/b.JPG") as Hin.
  { change ("dir/b.JPG" ∈ ["a.png"; "dir/b.JPG"]). right. left. }
  split; [exact Hin|].
  exact (proj1 (exec_all_captures "look at @a.png and @dir/b.JPG" "dir/b.JPG"
                  Hin)).
Defined.

Lemma extractImagePaths_paths_witness :
  count_code_unit "@" "no references here" = 0 ∧
  extractImagePaths (H := node_path) "no references here" "/work" = [] ∧
  extractImagePaths (H := node_path) "see @a.png and @/abs/b.gif" "/work"
    = ["/work/a.png"; "/abs/b.gif"].
Proof.
  split; [reflexivity|]. split.
  - exact (proj1 (proj2 (extractImagePaths_paths (H := node_path)
                           "no references here" "/work")) eq_refl).
  - vm_compute. reflexivity.
Defined.

(** ** Consumers *)

Lemma host_path_join_nonempty dir file : path_join (Host := host) dir file ≠ "".
Proof. destruct dir; discriminate. Qed.

Lemma display_payload_passes_guard_witness :
  (∀ dir file, path_join (Host := host) dir file ≠ "") ∧
  isImageResult
    (getStringifiedResultForDisplay (H := host) (surroundings 0)
       charts_response charts_world).1 = true ∧
  imagePaths
    [ {| image_filePath := "/tmp/a.png"; image_mimeType := "image/png";
         image_alt := Some "Two charts" |};
      {| image_filePath := "/tmp/b.png"; image_mimeType := "image/png";
         image_alt := Some "Two charts" |} ]
    = (["/tmp/a.png"; "/tmp/b.png"], None).
Proof.
  destruct (display_payload_passes_guard (H := host) (surroundings 0)
              charts_response charts_world) as [Hguard Hpaths].
  split_and!.
  - exact host_path_join_nonempty.
  - apply Hguard. eexists. exact (f_equal fst charts_display).
  - exact (Hpaths host_path_join_nonempty _ (f_equal fst charts_display)).
Defined.

Lemma imagePaths_all_or_nothing_witness :
  image_filePath (image_entry [] chart_a "") = "" ∧
  imagePaths
    [ image_entry [] chart_a "/tmp/a.png"; image_entry [] chart_a "";
      image_entry [] chart_b "/tmp/b.png" ]
    = ([], Some "Image missing file path").
Proof.
  split; [reflexivity|].
  exact (imagePaths_all_or_nothing [image_entry [] chart_a "/tmp/a.png"]
           [image_entry [] chart_b "/tmp/b.png"] (image_entry [] chart_a "")
           eq_refl).
Defined.

End WorkedMore.
